(** * Technical indicators and candlestick patterns: a shallow embedding

    The two Python modules [indicators.py] and [patterns.py] are embedded as
    Rocq functions and their specification is checked against them.

    Numbers.  Prices are finite Python numbers ([int] or [float]); the
    specification speaks of real numbers.  They are modelled as exact
    rationals [Q], compared with [==] ([Qeq]), so that [0.01], [0.236] and
    the like are the decimal fractions they denote.  A pandas float cell is
    [option Q], with [None] for NaN, the missing-value marker.  What is
    proved of these functions is the part of their behaviour that does not
    depend on the rounding of binary64; where the rounding decides, the
    kernels are run on the floats themselves, in the module [F64].

    Errors.  A Python call either returns a value or raises; this is the
    [result] monad below. *)

From Stdlib Require Import QArith Qabs ZArith List String Bool Lia Lqa.
From Stdlib Require Import SetoidList Sorted.
From Stdlib Require Floats.
Import ListNotations.

Set Warnings "-inexact-float".

Open Scope Z_scope.
Open Scope Q_scope.

(** ** Python values, exceptions and control flow *)

Module Py.

Inductive exn : Type :=
| IndexError
| ValueError
| OverflowError.

Inductive result (A : Type) : Type :=
| Ok (a : A)
| Raise (e : exn).

Arguments Ok {A} a.
Arguments Raise {A} e.

Definition bind {A B : Type} (m : result A) (k : A -> result B) : result B :=
  match m with
  | Ok a => k a
  | Raise e => Raise e
  end.

Definition raises {A : Type} (m : result A) : Prop :=
  exists e, m = Raise e.

(** [len(l)] *)
Definition len {A : Type} (l : list A) : Z := Z.of_nat (length l).

(** [range(lo, hi)] *)
Definition range (lo hi : Z) : list Z :=
  map (fun k => lo + Z.of_nat k)%Z (seq 0 (Z.to_nat (hi - lo))).

(** [l[i]], for a list, and [df.iloc[i]], for the rows of a frame: a
    negative index counts from the end, an index out of range raises. *)
Definition getitem {A : Type} (l : list A) (i : Z) : result A :=
  let j := (if i <? 0 then i + len l else i)%Z in
  if (j <? 0)%Z then Raise IndexError
  else match nth_error l (Z.to_nat j) with
       | Some a => Ok a
       | None => Raise IndexError
       end.

(** [for i in idx: s = body(i, s)] *)
Fixpoint for_each {S : Type} (idx : list Z) (body : Z -> S -> result S)
         (s : S) : result S :=
  match idx with
  | [] => Ok s
  | i :: rest => bind (body i s) (for_each rest body)
  end.

(** [l[lo:hi]] for [0 <= lo], [0 <= hi] *)
Definition slice {A : Type} (l : list A) (lo hi : Z) : list A :=
  firstn (Z.to_nat (hi - lo)) (skipn (Z.to_nat lo) l).

End Py.

Import Py.

Notation "x <- m ;; k" := (bind m (fun x => k))
  (at level 61, m at next level, right associativity).

(** [x < y] on numbers *)
Definition Qltb (x y : Q) : bool := negb (Qle_bool y x).

(** ** patterns.py *)

Module Patterns.

(** A row of the price frame. *)
Record Candle : Type := mkCandle {
  Date : Z;
  Open : Q;
  Close : Q;
  High : Q;
  Low : Q
}.

Definition default_threshold : Q := 1 # 100.

Definition is_doji (open_price close_price threshold : Q) : bool :=
  Qltb (Qabs (open_price - close_price))
       (threshold * (open_price + close_price) / 2).

Definition is_hammer (low high open_price close_price : Q) : bool :=
  let body := Qabs (close_price - open_price) in
  let lower_shadow :=
    if Qltb open_price close_price then open_price - low
    else close_price - low in
  let upper_shadow :=
    if Qltb open_price close_price then high - open_price
    else high - close_price in
  Qltb body (upper_shadow * (1 # 10)) && Qltb (2 * body) lower_shadow.

Definition is_engulfing
  (previous_open previous_close current_open current_close : Q) : string :=
  if Qltb current_open previous_close && Qltb previous_open current_close
  then "Bullish"%string
  else if Qltb previous_close current_open && Qltb current_close previous_open
  then "Bearish"%string
  else "None"%string.

Definition event : Type := (Z * string)%type.

(** The body of the loop of [detect_patterns]: one iteration at index [i]. *)
Definition detect_step (data : list Candle) (i : Z) (patterns : list event)
  : result (list event) :=
  current_candle <- getitem data i ;;
  previous_candle <- getitem data (i - 1) ;;
  if is_doji (Open current_candle) (Close current_candle) default_threshold
  then Ok (patterns ++ [(Date current_candle, "Doji"%string)])
  else if is_hammer (Low current_candle) (High current_candle)
                    (Open current_candle) (Close current_candle)
  then Ok (patterns ++ [(Date current_candle, "Hammer"%string)])
  else
    let engulfing_type :=
      is_engulfing (Open previous_candle) (Close previous_candle)
                   (Open current_candle) (Close current_candle) in
    if negb (String.eqb engulfing_type "None")
    then Ok (patterns ++
             [(Date current_candle, (engulfing_type ++ " Engulfing")%string)])
    else Ok patterns.

Definition detect_patterns (data : list Candle) : result (list event) :=
  for_each (range 1 (len data)) (detect_step data) [].

(** The frame of the module's example. *)
Definition example_data : list Candle :=
  [ mkCandle 0 100 102 103 99;
    mkCandle 1 102 101 104 100;
    mkCandle 2 101 104 105 100;
    mkCandle 3 103 99 104 95;
    mkCandle 4 99 98 100 97;
    mkCandle 5 98 97 99 96 ].

(** *** The classifier as the specification words it

    An ordered rule list, evaluated top to bottom on a bar and its
    predecessor; the first rule that matches gives the one event of the
    bar, and a bar no rule matches gives none. *)

Definition rule : Type := Candle -> Candle -> option string.

Definition doji_rule : rule := fun _ cur =>
  if is_doji (Open cur) (Close cur) default_threshold
  then Some "Doji"%string else None.

Definition hammer_rule : rule := fun _ cur =>
  if is_hammer (Low cur) (High cur) (Open cur) (Close cur)
  then Some "Hammer"%string else None.

Definition engulfing_rule : rule := fun prev cur =>
  match is_engulfing (Open prev) (Close prev) (Open cur) (Close cur) with
  | "None"%string => None
  | kind => Some (kind ++ " Engulfing")%string
  end.

Definition priority_rules : list rule :=
  [doji_rule; hammer_rule; engulfing_rule].

Fixpoint first_match (rules : list rule) (prev cur : Candle) : option string :=
  match rules with
  | [] => None
  | r :: rest =>
      match r prev cur with
      | Some kind => Some kind
      | None => first_match rest prev cur
      end
  end.

Definition classify_bar (prev cur : Candle) : list event :=
  match first_match priority_rules prev cur with
  | Some kind => [(Date cur, kind)]
  | None => []
  end.

(** Bars paired with their predecessor: the second bar onward. *)
Fixpoint with_previous (bars : list Candle) : list (Candle * Candle) :=
  match bars with
  | prev :: (cur :: _) as rest => (prev, cur) :: with_previous rest
  | _ => []
  end.

Definition classify_sequence (bars : list Candle) : list event :=
  flat_map (fun pc => classify_bar (fst pc) (snd pc)) (with_previous bars).

(** Body geometry, for the engulfing rule. *)
Definition body_low (o c : Q) : Q := if Qltb o c then o else c.
Definition body_high (o c : Q) : Q := if Qltb o c then c else o.

(** The bodies share at least a point. *)
Definition bodies_overlap (po pc co cc : Q) : bool :=
  Qle_bool (body_low co cc) (body_high po pc) &&
  Qle_bool (body_low po pc) (body_high co cc).

(** The current body is rising and covers the whole previous body. *)
Definition contains_upward (po pc co cc : Q) : bool :=
  Qltb co cc &&
  Qle_bool co (body_low po pc) && Qle_bool (body_high po pc) cc.

End Patterns.

Import Patterns.


(** ** pandas: the operations of [Series] the module calls

    A [Series] of floats is the list of its cells.  The kernels below follow
    the library's windowing code: the fixed-window bounds, the running
    add/remove accumulator of the rolling mean, and the recursive
    exponentially weighted mean.  Over exact rationals the compensation
    terms of the float summation are zero and are left out. *)

Module Pandas.

(** A float cell; [None] is NaN. *)
Definition cell : Type := option Q.
Definition NaN : cell := None.

Definition Series : Type := list cell.

(** What [pd.Series(...)] is given: a Python list of numbers, or a Series. *)
Inductive array_like : Type :=
| py_list (l : list Q)
| pd_series (s : Series).

(** [pd.Series(data)] *)
Definition mkSeries (data : array_like) : Series :=
  match data with
  | py_list l => map Some l
  | pd_series s => s
  end.

(** [a - b] on Series of one index: cell by cell, NaN absorbing. *)
Definition cell_sub (a b : cell) : cell :=
  match a, b with
  | Some x, Some y => Some (x - y)
  | _, _ => NaN
  end.

Fixpoint series_sub (a b : Series) : Series :=
  match a, b with
  | x :: a', y :: b' => cell_sub x y :: series_sub a' b'
  | _, _ => []
  end.

(** *** rolling(window).mean() *)

Definition clip (lo hi x : Z) : Z := Z.max lo (Z.min hi x).

(** Bounds of the fixed window, closed on the right: position [i] sees
    [values[start[i] : end[i]]]. *)
Definition get_window_bounds (num_values window_size : Z) : list (Z * Z) :=
  map (fun e => (clip 0 num_values (e - window_size), clip 0 num_values e))
      (range 1 (num_values + 1)).

Record mean_state : Type := mkMean {
  nobs : Z;
  sum_x : Q;
  neg_ct : Z
}.

Definition mean_init : mean_state := mkMean 0 0 0.

Definition add_mean (st : mean_state) (val : cell) : mean_state :=
  match val with
  | Some v => mkMean (nobs st + 1) (sum_x st + v)
                     (if Qltb v 0 then neg_ct st + 1 else neg_ct st)
  | None => st
  end.

Definition remove_mean (st : mean_state) (val : cell) : mean_state :=
  match val with
  | Some v => mkMean (nobs st - 1) (sum_x st - v)
                     (if Qltb v 0 then neg_ct st - 1 else neg_ct st)
  | None => st
  end.

Definition calc_mean (minp : Z) (st : mean_state) : cell :=
  if (minp <=? nobs st)%Z && (0 <? nobs st)%Z then
    let result := sum_x st / inject_Z (nobs st) in
    if (neg_ct st =? 0)%Z && Qltb result 0 then Some 0
    else if (neg_ct st =? nobs st)%Z && Qltb 0 result then Some 0
    else Some result
  else NaN.

(** The loop of the kernel over the positions: [prev] holds the bounds of
    the position before, [None] at the first one. *)
Fixpoint roll_mean_loop (values : Series) (minp : Z) (bounds : list (Z * Z))
         (prev : option (Z * Z)) (st : mean_state) : Series :=
  match bounds with
  | [] => []
  | (s, e) :: rest =>
      let st' :=
        match prev with
        | Some (ps, pe) =>
            if (pe <=? s)%Z then
              (* disjoint from the window before: set up afresh *)
              fold_left add_mean (slice values s e) mean_init
            else
              (* deletes, then adds *)
              fold_left add_mean (slice values pe e)
                (fold_left remove_mean (slice values ps s) st)
        | None => fold_left add_mean (slice values s e) mean_init
        end in
      calc_mean minp st' :: roll_mean_loop values minp rest (Some (s, e)) st'
  end.

(** The first integer that no longer fits the 64-bit integer of the
    kernels. *)
Definition int64_limit : Z := 2 ^ 63.

(** [s.rolling(window=window).mean()]: [min_periods] defaults to the
    window size; a negative window is refused, and a window that does not
    fit a 64-bit integer overflows on the way into the kernel. *)
Definition rolling_mean (s : Series) (window : Z) : result Series :=
  if (window <? 0)%Z then Raise ValueError
  else if (int64_limit <=? window)%Z then Raise OverflowError
  else Ok (roll_mean_loop s window (get_window_bounds (len s) window)
                          None mean_init).

(** *** ewm(span, adjust=False).mean() *)

Record ewm_state : Type := mkEwm {
  weighted : cell;
  ewm_nobs : Z;
  old_wt : Q
}.

(** One position of the recursion, with [adjust=False] and
    [ignore_na=False]: [alpha] is the weight of the new observation, [com]
    the centre of mass; at centre of mass one the new weight is taken from
    the old one at every position. *)
Definition ewm_step (com alpha : Q) (st : ewm_state) (cur : cell)
  : ewm_state :=
  let old_wt_factor := 1 - alpha in
  let n := (match cur with Some _ => ewm_nobs st + 1 | None => ewm_nobs st end)%Z in
  match weighted st with
  | Some w =>
      let ow := old_wt st * old_wt_factor in
      let new_wt := if Qeq_bool com 1 then 1 - ow else alpha in
      match cur with
      | Some c =>
          (* a constant run keeps its value untouched *)
          if Qeq_bool w c then mkEwm (Some w) n 1
          else mkEwm (Some ((ow * w + new_wt * c) / (ow + new_wt))) n 1
      | None => mkEwm (Some w) n ow
      end
  | None => mkEwm cur n (old_wt st)
  end.

Definition ewm_out (minp : Z) (st : ewm_state) : cell :=
  if (minp <=? ewm_nobs st)%Z then weighted st else NaN.

Fixpoint ewm_loop (com alpha : Q) (minp : Z) (st : ewm_state)
         (vals : Series) : Series :=
  match vals with
  | [] => []
  | cur :: rest =>
      let st' := ewm_step com alpha st cur in
      ewm_out minp st' :: ewm_loop com alpha minp st' rest
  end.

Definition ewm_kernel (com alpha : Q) (minp : Z) (vals : Series) : Series :=
  match vals with
  | [] => []
  | first :: rest =>
      let st := mkEwm first (match first with Some _ => 1 | None => 0 end)%Z 1 in
      ewm_out minp st :: ewm_loop com alpha minp st rest
  end.

(** The first span whose centre of mass [(span - 1) / 2], an integer
    division rounded to the nearest float, leaves the range of binary64:
    the quotient [2^1024 - 2^970] lies half-way to [2^1024] and rounds up. *)
Definition span_limit : Z := 2 ^ 1025 - 2 ^ 971 + 1.

(** [s.ewm(span=span, adjust=False).mean()]: a span below one is refused
    and a span whose centre of mass is too large for a float overflows;
    the centre of mass is [(span - 1) / 2], the weight [1 / (1 + com)];
    [min_periods=0] counts as one. *)
Definition ewm_mean (s : Series) (span : Z) : result Series :=
  if (span <? 1)%Z then Raise ValueError
  else if (span_limit <=? span)%Z then Raise OverflowError
  else
    let com := (inject_Z span - 1) / 2 in
    let alpha := 1 / (1 + com) in
    Ok (ewm_kernel com alpha 1 s).

(** *** value_counts() *)

(** The counting table, keys in the order first seen. *)
Fixpoint count_insert (v : Q) (table : list (Q * Z)) : list (Q * Z) :=
  match table with
  | [] => [(v, 1%Z)]
  | (k, n) :: rest =>
      if Qeq_bool k v then (k, (n + 1)%Z) :: rest
      else (k, n) :: count_insert v rest
  end.

Definition count_cell (table : list (Q * Z)) (c : cell) : list (Q * Z) :=
  match c with
  | Some v => count_insert v table
  | None => table
  end.

(** Stable sort of the table by count, highest first. *)
Fixpoint insert_by_count (x : Q * Z) (sorted : list (Q * Z)) : list (Q * Z) :=
  match sorted with
  | [] => [x]
  | y :: rest =>
      if (snd y <=? snd x)%Z then x :: y :: rest
      else y :: insert_by_count x rest
  end.

Definition sort_by_count (table : list (Q * Z)) : list (Q * Z) :=
  fold_right insert_by_count [] table.

(** [s.value_counts()]: the distinct values (NaN dropped) with the number
    of their occurrences, as a Series indexed by value. *)
Definition value_counts (s : Series) : list (Q * Z) :=
  sort_by_count (fold_left count_cell s []).

(** [levels[mask].index.tolist()] for a mask on the counts *)
Definition index_where (mask : Z -> bool) (levels : list (Q * Z)) : list Q :=
  map fst (filter (fun kv => mask (snd kv)) levels).

End Pandas.

Import Pandas.

(** ** indicators.py *)

Module Indicators.

Definition calculate_sma (prices : array_like) (period : Z) : result Series :=
  sma <- rolling_mean (mkSeries prices) period ;;
  Ok sma.

Definition calculate_ema (prices : array_like) (period : Z) : result Series :=
  ema <- ewm_mean (mkSeries prices) period ;;
  Ok ema.

Definition calculate_macd (prices : array_like) : result (Series * Series) :=
  ema_12 <- calculate_ema prices 12 ;;
  ema_26 <- calculate_ema prices 26 ;;
  let macd := series_sub ema_12 ema_26 in
  signal_line <- calculate_ema (pd_series macd) 9 ;;
  Ok (macd, signal_line).

(** The dictionary with the keys ['support'] and ['resistance']. *)
Record horizontal_levels : Type := mkHorizontal {
  support : list Q;
  resistance : list Q
}.

Definition identify_horizontal_support_resistance (prices : array_like)
  : result horizontal_levels :=
  let levels := value_counts (mkSeries prices) in
  let resistance := index_where (fun n => 1 <? n)%Z levels in
  let support := index_where (fun n => n <? 1)%Z levels in
  Ok (mkHorizontal support resistance).

(** The dictionary of levels, in the order its keys are written. *)
Definition calculate_fibonacci_levels (swing_high swing_low : Q)
  : result (list (string * Q)) :=
  let price_range := swing_high - swing_low in
  let levels :=
    [ ("Support Level 1"%string, swing_high - (236 # 1000) * price_range);
      ("Support Level 2"%string, swing_high - (382 # 1000) * price_range);
      ("Support Level 3"%string, swing_high - (618 # 1000) * price_range);
      ("Resistance Level 1"%string, swing_low + (236 # 1000) * price_range);
      ("Resistance Level 2"%string, swing_low + (382 # 1000) * price_range);
      ("Resistance Level 3"%string, swing_low + (618 # 1000) * price_range) ] in
  Ok levels.

(** The dictionary with the keys ['peaks'] and ['troughs']. *)
Record peaks_troughs : Type := mkPeaksTroughs {
  peaks : list Q;
  troughs : list Q
}.

(** [l[i] > l[j]] and [l[i] < l[j]], the items fetched left to right. *)
Definition gt_items (l : list Q) (i j : Z) : result bool :=
  x <- getitem l i ;;
  y <- getitem l j ;;
  Ok (Qltb y x).

Definition lt_items (l : list Q) (i j : Z) : result bool :=
  x <- getitem l i ;;
  y <- getitem l j ;;
  Ok (Qltb x y).

(** [a and b]: [b] is evaluated only when [a] holds. *)
Definition and_then (a b : result bool) : result bool :=
  x <- a ;;
  if x then b else Ok false.

(** The body of the loop of [peak_trough_analysis] at index [i]. *)
Definition peak_trough_step (prices : list Q) (i : Z) (acc : peaks_troughs)
  : result peaks_troughs :=
  is_peak <- and_then (gt_items prices i (i - 1))
                      (gt_items prices i (i + 1)) ;;
  if is_peak then
    p <- getitem prices i ;;
    Ok (mkPeaksTroughs (peaks acc ++ [p]) (troughs acc))
  else
    is_trough <- and_then (lt_items prices i (i - 1))
                          (lt_items prices i (i + 1)) ;;
    if is_trough then
      p <- getitem prices i ;;
      Ok (mkPeaksTroughs (peaks acc) (troughs acc ++ [p]))
    else Ok acc.

Definition peak_trough_analysis (prices : list Q) : result peaks_troughs :=
  for_each (range 1 (len prices - 1)) (peak_trough_step prices)
           (mkPeaksTroughs [] []).

(** The data of the module's examples. *)
Definition prices : list Q :=
  [ 6150 # 100; 6230 # 100; 6180 # 100; 6250 # 100; 6290 # 100; 6300 # 100;
    6330 # 100; 6370 # 100; 6450 # 100; 6520 # 100; 6480 # 100; 6500 # 100;
    6650 # 100; 6700 # 100; 6780 # 100; 6800 # 100; 6750 # 100; 6720 # 100;
    6850 # 100; 6880 # 100 ].

Definition historical_prices : list Q :=
  [100; 102; 105; 102; 107; 103; 101; 106; 109; 107; 110; 105].

End Indicators.

Import Indicators.

(** ** The averages on binary64 floats

    The same kernels with the arithmetic the code runs on: [float] is IEEE
    754 binary64, NaN is the float NaN, and every comparison with NaN is
    false.  The running sums carry the compensation terms of the library. *)

Module F64.

Import Floats.
Local Open Scope float_scope.

Definition Series : Type := list float.

(** [m * 2^e] rounded to the nearest float: the conversion of a Python
    integer, and the true division of an integer by a power of two. *)
Definition of_scaled (m e : Z) : float :=
  SF2Prim (binary_normalize prec emax m e false).

Definition of_int (z : Z) : float := of_scaled z 0.

(** *** rolling(window).mean() *)

Record mean_state : Type := mkMean {
  nobs : Z;
  sum_x : float;
  neg_ct : Z;
  compensation_add : float;
  compensation_remove : float;
  num_consecutive_same_value : Z;
  prev_value : float
}.

(** The accumulator at the set-up of a window whose first value is
    [first]. *)
Definition mean_setup (first : float) : mean_state :=
  mkMean 0 0 0 0 0 0 first.

Definition add_mean (st : mean_state) (val : float) : mean_state :=
  if val =? val then
    let y := val - compensation_add st in
    let t := sum_x st + y in
    mkMean (nobs st + 1) t
           (if get_sign val then neg_ct st + 1 else neg_ct st)%Z
           (t - sum_x st - y) (compensation_remove st)
           (if val =? prev_value st
            then (num_consecutive_same_value st + 1)%Z else 1%Z)
           val
  else st.

Definition remove_mean (st : mean_state) (val : float) : mean_state :=
  if val =? val then
    let y := - val - compensation_remove st in
    let t := sum_x st + y in
    mkMean (nobs st - 1) t
           (if get_sign val then neg_ct st - 1 else neg_ct st)%Z
           (compensation_add st) (t - sum_x st - y)
           (num_consecutive_same_value st) (prev_value st)
  else st.

Definition calc_mean (minp : Z) (st : mean_state) : float :=
  if ((minp <=? nobs st)%Z && (0 <? nobs st)%Z)%bool then
    let result := sum_x st / of_int (nobs st) in
    if (nobs st <=? num_consecutive_same_value st)%Z then prev_value st
    else if ((neg_ct st =? 0)%Z && (result <? 0))%bool then 0
    else if ((neg_ct st =? nobs st)%Z && (0 <? result))%bool then 0
    else result
  else nan.

Fixpoint roll_mean_loop (values : Series) (minp : Z) (bounds : list (Z * Z))
         (prev : option (Z * Z)) (st : mean_state) : Series :=
  match bounds with
  | [] => []
  | (s, e) :: rest =>
      let setup :=
        fold_left add_mean (slice values s e)
                  (mean_setup (nth (Z.to_nat s) values nan)) in
      let st' :=
        match prev with
        | Some (ps, pe) =>
            if (pe <=? s)%Z then setup
            else
              fold_left add_mean (slice values pe e)
                (fold_left remove_mean (slice values ps s) st)
        | None => setup
        end in
      calc_mean minp st' :: roll_mean_loop values minp rest (Some (s, e)) st'
  end.

Definition rolling_mean (s : Series) (window : Z) : result Series :=
  if (window <? 0)%Z then Raise ValueError
  else if (int64_limit <=? window)%Z then Raise OverflowError
  else Ok (roll_mean_loop s window (get_window_bounds (len s) window)
                          None (mean_setup nan)).

(** *** ewm(span, adjust=False).mean() *)

Record ewm_state : Type := mkEwm {
  weighted : float;
  ewm_nobs : Z;
  old_wt : float
}.

Definition ewm_step (com alpha : float) (st : ewm_state) (cur : float)
  : ewm_state :=
  let old_wt_factor := 1 - alpha in
  let is_observation := cur =? cur in
  let n := if is_observation then (ewm_nobs st + 1)%Z else ewm_nobs st in
  if weighted st =? weighted st then
    let ow := old_wt st * old_wt_factor in
    let new_wt := if com =? 1 then 1 - ow else alpha in
    if is_observation then
      (* a constant run keeps its value untouched *)
      if weighted st =? cur then mkEwm (weighted st) n 1
      else mkEwm ((ow * weighted st + new_wt * cur) / (ow + new_wt)) n 1
    else mkEwm (weighted st) n ow
  else if is_observation then mkEwm cur n (old_wt st)
  else mkEwm (weighted st) n (old_wt st).

Definition ewm_out (minp : Z) (st : ewm_state) : float :=
  if (minp <=? ewm_nobs st)%Z then weighted st else nan.

Fixpoint ewm_loop (com alpha : float) (minp : Z) (st : ewm_state)
         (vals : Series) : Series :=
  match vals with
  | [] => []
  | cur :: rest =>
      let st' := ewm_step com alpha st cur in
      ewm_out minp st' :: ewm_loop com alpha minp st' rest
  end.

Definition ewm_kernel (com alpha : float) (minp : Z) (vals : Series)
  : Series :=
  match vals with
  | [] => []
  | first :: rest =>
      let st := mkEwm first (if first =? first then 1%Z else 0%Z) 1 in
      ewm_out minp st :: ewm_loop com alpha minp st rest
  end.

Definition ewm_mean (s : Series) (span : Z) : result Series :=
  if (span <? 1)%Z then Raise ValueError
  else if (span_limit <=? span)%Z then Raise OverflowError
  else
    let com := of_scaled (span - 1) (-1) in
    let alpha := 1 / (1 + com) in
    Ok (ewm_kernel com alpha 1 s).

(** *** indicators.py on a list of floats *)

Definition calculate_sma (prices : Series) (period : Z) : result Series :=
  sma <- rolling_mean prices period ;;
  Ok sma.

Definition calculate_ema (prices : Series) (period : Z) : result Series :=
  ema <- ewm_mean prices period ;;
  Ok ema.

End F64.

(** ** Reference notions of the specification *)

(** Sum and arithmetic mean of a list of numbers. *)
Definition Qsum (l : list Q) : Q := fold_right Qplus 0 l.

Definition mean (l : list Q) : Q := Qsum l / inject_Z (len l).

(** The number of occurrences of a value in a price list. *)
Definition occurrences (v : Q) (l : list Q) : Z :=
  len (filter (Qeq_bool v) l).

(** Strict local extrema at an interior position [i] of a price list. *)
Definition peak_at (l : list Q) (i : nat) : bool :=
  Qltb (nth (i - 1) l 0) (nth i l 0) && Qltb (nth (i + 1) l 0) (nth i l 0).

Definition trough_at (l : list Q) (i : nat) : bool :=
  negb (peak_at l i) &&
  (Qltb (nth i l 0) (nth (i - 1) l 0) && Qltb (nth i l 0) (nth (i + 1) l 0)).

(** The number of negative prices in a window. *)
Definition negatives (win : list Q) : Z :=
  len (filter (fun v => Qltb v 0) win).

(** The accumulator of the rolling mean holds the window [win]. *)
Definition holds_window (st : mean_state) (win : list Q) : Prop :=
  nobs st = len win /\ sum_x st == Qsum win /\ neg_ct st = negatives win.

(** What the specification asks of the cell at position [i] of the simple
    moving average of [l]: undefined before the first full window, the mean
    of the window after. *)
Definition sma_cell (l : list Q) (period i : Z) (c : cell) : Prop :=
  ((i < period - 1)%Z -> c = NaN) /\
  ((period - 1 <= i)%Z ->
   exists v, c = Some v /\ v == mean (slice l (i - period + 1) (i + 1))).

(** The count a table of [value_counts] gives to a value. *)
Fixpoint count_of (u : Q) (table : list (Q * Z)) : Z :=
  match table with
  | [] => 0
  | (k, n) :: rest => (if Qeq_bool k u then n else 0) + count_of u rest
  end%Z.

(** The answer of [is_engulfing] on the bars mirrored about zero. *)
Definition mirror_kind (kind : string) : string :=
  if String.eqb kind "Bullish" then "Bearish"%string
  else if String.eqb kind "Bearish" then "Bullish"%string
  else kind.

(** The pattern names [detect_patterns] can append. *)
Definition pattern_kinds : list string :=
  ["Doji"; "Hammer"; "Bullish Engulfing"; "Bearish Engulfing"]%string.

(** [xs] is [ys] with some elements left out, the order kept. *)
Inductive Subseq {A : Type} : list A -> list A -> Prop :=
| Subseq_nil : Subseq [] []
| Subseq_skip (y : A) (xs ys : list A) : Subseq xs ys -> Subseq xs (y :: ys)
| Subseq_keep (x : A) (xs ys : list A) :
    Subseq xs ys -> Subseq (x :: xs) (x :: ys).

(** Every number of a list lies in [[lo, hi]]. *)
Definition within (lo hi : Q) (l : list Q) : Prop :=
  Forall (fun x => lo <= x <= hi) l.

(** [vals] follows the recurrence of the exponential average on the prices
    [l], started from the value [w]. *)
Fixpoint ema_chain (alpha w : Q) (l vals : list Q) : Prop :=
  match l, vals with
  | [], [] => True
  | p :: l', v :: vals' =>
      v == alpha * p + (1 - alpha) * w /\ ema_chain alpha v l' vals'
  | _, _ => False
  end.

(** [vals] is left at the value before it wherever the price equals that
    value; [w] is the value before the first. *)
Fixpoint ema_keeps (w : Q) (l vals : list Q) : Prop :=
  match l, vals with
  | [], [] => True
  | p :: l', v :: vals' => (p == w -> v = w) /\ ema_keeps v l' vals'
  | _, _ => False
  end.

(** The difference of two lists of numbers, position by position. *)
Fixpoint sub_lists (a b : list Q) : list Q :=
  match a, b with
  | x :: a', y :: b' => (x - y) :: sub_lists a' b'
  | _, _ => []
  end.

(** The centre of mass and the weight [ewm_mean] gives a span. *)
Definition span_com (span : Z) : Q := (inject_Z span - 1) / 2.

Definition span_weight (span : Z) : Q := 1 / (1 + (inject_Z span - 1) / 2).

(** * Properties *)

(** ** Python basics *)

Lemma Qltb_iff (x y : Q) : Qltb x y = true <-> x < y.
Proof.
  unfold Qltb. rewrite negb_true_iff. split; intro H.
  - apply Qnot_le_lt. intro Hle. apply Qle_bool_iff in Hle. congruence.
  - destruct (Qle_bool y x) eqn:E; [|reflexivity].
    apply Qle_bool_iff in E. exfalso. apply (Qlt_not_le _ _ H E).
Qed.

Lemma Qltb_false_iff (x y : Q) : Qltb x y = false <-> y <= x.
Proof.
  unfold Qltb. rewrite negb_false_iff. apply Qle_bool_iff.
Qed.

Lemma range_nil (lo hi : Z) : (hi <= lo)%Z -> range lo hi = [].
Proof.
  intro H. unfold range. replace (Z.to_nat (hi - lo)) with 0%nat by lia.
  reflexivity.
Qed.

Lemma range_cons (lo hi : Z) :
  (lo < hi)%Z -> range lo hi = lo :: range (lo + 1) hi.
Proof.
  intro H. unfold range.
  replace (Z.to_nat (hi - lo)) with (S (Z.to_nat (hi - (lo + 1)))) by lia.
  cbn [seq map]. f_equal; [lia|].
  rewrite <- seq_shift, map_map. apply map_ext. intro k. lia.
Qed.

Lemma range_of_nat (a n : nat) :
  range (Z.of_nat a) (Z.of_nat (a + n)) = map Z.of_nat (seq a n).
Proof.
  revert a. induction n as [|n IH]; intro a.
  - rewrite range_nil by lia. reflexivity.
  - rewrite range_cons by lia. cbn [seq map]. f_equal.
    replace (Z.of_nat a + 1)%Z with (Z.of_nat (S a)) by lia.
    replace (a + S n)%nat with (S a + n)%nat by lia. apply IH.
Qed.

Lemma getitem_nat {A : Type} (l : list A) (i : nat) (a : A) :
  nth_error l i = Some a -> getitem l (Z.of_nat i) = Ok a.
Proof.
  intro H. unfold getitem.
  destruct (Z.ltb_spec (Z.of_nat i) 0) as [Hneg|_]; [lia|].
  destruct (Z.ltb_spec (Z.of_nat i) 0) as [Hneg|_]; [lia|].
  rewrite Nat2Z.id, H. reflexivity.
Qed.

Lemma getitem_app {A : Type} (pre : list A) (a : A) (rest : list A) :
  getitem (pre ++ a :: rest) (len pre) = Ok a.
Proof.
  apply getitem_nat. rewrite nth_error_app2 by lia.
  rewrite Nat.sub_diag. reflexivity.
Qed.

(** ** patterns.py *)

Lemma is_engulfing_cases (po pc co cc : Q) :
  is_engulfing po pc co cc = "Bullish"%string \/
  is_engulfing po pc co cc = "Bearish"%string \/
  is_engulfing po pc co cc = "None"%string.
Proof.
  unfold is_engulfing.
  destruct (Qltb co pc && Qltb po cc); [auto|].
  destruct (Qltb pc co && Qltb cc po); auto.
Qed.

Lemma detect_step_classify (data : list Candle) (i : Z) (prev cur : Candle)
      (acc : list event) :
  getitem data i = Ok cur ->
  getitem data (i - 1) = Ok prev ->
  detect_step data i acc = Ok (acc ++ classify_bar prev cur).
Proof.
  intros Hc Hp. unfold detect_step. rewrite Hc, Hp. cbn [bind].
  unfold classify_bar, priority_rules, first_match,
    doji_rule, hammer_rule, engulfing_rule.
  destruct (is_doji _ _ _); [reflexivity|].
  destruct (is_hammer _ _ _ _); [reflexivity|].
  destruct (is_engulfing_cases (Open prev) (Close prev) (Open cur) (Close cur))
    as [E|[E|E]]; rewrite E; cbn; try reflexivity.
  rewrite app_nil_r. reflexivity.
Qed.

Lemma detect_loop_from (rest pre : list Candle) (prev : Candle)
      (acc : list event) :
  for_each (range (len pre + 1) (len (pre ++ prev :: rest)))
           (detect_step (pre ++ prev :: rest)) acc
  = Ok (acc ++ classify_sequence (prev :: rest)).
Proof.
  revert pre prev acc.
  induction rest as [|cur rest IH]; intros pre prev acc.
  - rewrite range_nil.
    + cbn. rewrite app_nil_r. reflexivity.
    + unfold len. rewrite length_app. cbn. lia.
  - rewrite range_cons.
    2:{ unfold len. rewrite length_app. cbn. lia. }
    cbn [for_each].
    rewrite (detect_step_classify _ _ prev cur).
    + cbn [bind].
      replace (pre ++ prev :: cur :: rest) with ((pre ++ [prev]) ++ cur :: rest)
        by (rewrite <- app_assoc; reflexivity).
      replace (len pre + 1 + 1)%Z with (len (pre ++ [prev]) + 1)%Z
        by (unfold len; rewrite length_app; cbn; lia).
      rewrite IH. unfold classify_sequence. cbn [with_previous flat_map fst snd].
      rewrite app_assoc. reflexivity.
    + replace (len pre + 1)%Z with (len (pre ++ [prev]))
        by (unfold len; rewrite length_app; cbn; lia).
      replace (pre ++ prev :: cur :: rest) with ((pre ++ [prev]) ++ cur :: rest)
        by (rewrite <- app_assoc; reflexivity).
      apply getitem_app.
    + replace (len pre + 1 - 1)%Z with (len pre) by lia.
      apply getitem_app.
Qed.

(** The loop of [detect_patterns] returns, and what it returns is the
    scan of the specification. *)
Lemma detect_patterns_classify (data : list Candle) :
  detect_patterns data = Ok (classify_sequence data).
Proof.
  unfold detect_patterns. destruct data as [|b rest].
  - reflexivity.
  - apply (detect_loop_from rest [] b []).
Qed.

Lemma classify_sequence_split (pre : list Candle) (prev cur : Candle)
      (post : list Candle) :
  classify_sequence (pre ++ prev :: cur :: post) =
  classify_sequence (pre ++ [prev]) ++ classify_bar prev cur ++
  classify_sequence (cur :: post).
Proof.
  unfold classify_sequence.
  induction pre as [|a pre IH].
  - reflexivity.
  - destruct pre as [|b pre].
    + cbn in *. rewrite app_nil_r. reflexivity.
    + change ((a :: b :: pre) ++ prev :: cur :: post)
        with (a :: (b :: pre) ++ prev :: cur :: post).
      change ((a :: b :: pre) ++ [prev]) with (a :: (b :: pre) ++ [prev]).
      change (with_previous (a :: (b :: pre) ++ prev :: cur :: post))
        with ((a, b) :: with_previous ((b :: pre) ++ prev :: cur :: post)).
      change (with_previous (a :: (b :: pre) ++ [prev]))
        with ((a, b) :: with_previous ((b :: pre) ++ [prev])).
      cbn [flat_map]. rewrite IH, <- app_assoc. reflexivity.
Qed.

Lemma classify_bar_unfold (prev cur : Candle) :
  classify_bar prev cur =
  if is_doji (Open cur) (Close cur) default_threshold
  then [(Date cur, "Doji"%string)]
  else if is_hammer (Low cur) (High cur) (Open cur) (Close cur)
  then [(Date cur, "Hammer"%string)]
  else if String.eqb (is_engulfing (Open prev) (Close prev)
                                   (Open cur) (Close cur)) "None"
  then []
  else [(Date cur,
         (is_engulfing (Open prev) (Close prev) (Open cur) (Close cur)
          ++ " Engulfing")%string)].
Proof.
  unfold classify_bar, priority_rules, first_match,
    doji_rule, hammer_rule, engulfing_rule.
  destruct (is_doji _ _ _); [reflexivity|].
  destruct (is_hammer _ _ _ _); [reflexivity|].
  destruct (is_engulfing_cases (Open prev) (Close prev) (Open cur) (Close cur))
    as [E|[E|E]]; rewrite E; reflexivity.
Qed.

(** C3. [detect_patterns] returns the scan of the specification: the first
    bar gives no event, every later bar gives the events of [classify_bar]
    on it and its predecessor, in the order of the bars; [classify_bar]
    tries Doji, then Hammer, then Engulfing, the first match being the only
    event and no match giving no event; so a doji-shaped bar that also
    completes an engulfing pair gives the one Doji event. *)
Theorem detect_patterns_fixed_priority :
  (forall data, detect_patterns data = Ok (classify_sequence data)) /\
  (forall first, detect_patterns [first] = Ok []) /\
  (forall pre prev cur post,
      detect_patterns (pre ++ prev :: cur :: post) =
      Ok (classify_sequence (pre ++ [prev]) ++ classify_bar prev cur ++
          classify_sequence (cur :: post))) /\
  (forall prev cur,
      classify_bar prev cur =
      if is_doji (Open cur) (Close cur) default_threshold
      then [(Date cur, "Doji"%string)]
      else if is_hammer (Low cur) (High cur) (Open cur) (Close cur)
      then [(Date cur, "Hammer"%string)]
      else if String.eqb (is_engulfing (Open prev) (Close prev)
                                       (Open cur) (Close cur)) "None"
      then []
      else [(Date cur,
             (is_engulfing (Open prev) (Close prev) (Open cur) (Close cur)
              ++ " Engulfing")%string)]) /\
  (forall prev cur,
      is_doji (Open cur) (Close cur) default_threshold = true ->
      is_engulfing (Open prev) (Close prev) (Open cur) (Close cur)
        <> "None"%string ->
      detect_patterns [prev; cur] = Ok [(Date cur, "Doji"%string)]).
Proof.
  split; [exact detect_patterns_classify|].
  split; [intro first; apply detect_patterns_classify|].
  split.
  { intros. rewrite detect_patterns_classify, classify_sequence_split.
    reflexivity. }
  split; [exact classify_bar_unfold|].
  intros prev cur Hd _. rewrite detect_patterns_classify.
  unfold classify_sequence. cbn [with_previous flat_map fst snd].
  rewrite classify_bar_unfold, Hd. reflexivity.
Qed.

(** A doji-shaped bar closing an engulfing pair: one Doji event. *)
Lemma detect_patterns_fixed_priority_witness :
  detect_patterns [mkCandle 0 100 (201 # 2) 101 99;
                   mkCandle 1 (1002 # 10) (1006 # 10) 101 100]
  = Ok [(1%Z, "Doji"%string)].
Proof.
  apply (proj2 (proj2 (proj2 (proj2 detect_patterns_fixed_priority)))
           (mkCandle 0 100 (201 # 2) 101 99)
           (mkCandle 1 (1002 # 10) (1006 # 10) 101 100)).
  - reflexivity.
  - vm_compute. discriminate.
Defined.

(** C8. The code at two bars the rule must not take: after the rising
    body 100 to 102, the body 101 to 103 only overlaps it and the body 101
    to 100.5 lies inside it and falls; neither contains the previous body,
    and the answer is Bullish both times. *)
Lemma is_engulfing_overlap_is_bullish :
  bodies_overlap 100 102 101 103 = true /\
  contains_upward 100 102 101 103 = false /\
  is_engulfing 100 102 101 103 = "Bullish"%string /\
  is_engulfing 100 102 101 103 <> "None"%string /\
  contains_upward 100 102 101 (201 # 2) = false /\
  is_engulfing 100 102 101 (201 # 2) = "Bullish"%string.
Proof.
  repeat split; try reflexivity. vm_compute. discriminate.
Qed.

(** C9. When [open + close] is zero [is_doji] answers [false], whatever
    the threshold: the right-hand side of the comparison is zero and no
    absolute value is below it. *)
Theorem is_doji_zero_sum (open_price close_price threshold : Q) :
  open_price + close_price == 0 ->
  is_doji open_price close_price threshold = false.
Proof.
  intro H. unfold is_doji. apply Qltb_false_iff.
  assert (E : threshold * (open_price + close_price) / 2 == 0).
  { rewrite H. field. }
  rewrite E. apply Qabs_nonneg.
Qed.

Lemma is_doji_zero_sum_witness : is_doji 5 (-5) (1 # 100) = false.
Proof.
  apply (is_doji_zero_sum 5 (-5) (1 # 100)). reflexivity.
Defined.

(** ** indicators.py: Fibonacci levels and peaks *)




Lemma peak_trough_step_interior (l : list Q) (i : nat) (acc : peaks_troughs) :
  (1 <= i)%nat -> (i + 1 < length l)%nat ->
  peak_trough_step l (Z.of_nat i) acc =
  Ok (mkPeaksTroughs
        (peaks acc ++ (if peak_at l i then [nth i l 0] else []))
        (troughs acc ++ (if trough_at l i then [nth i l 0] else []))).
Proof.
  intros H1 H2.
  assert (G0 : getitem l (Z.of_nat i) = Ok (nth i l 0))
    by (apply getitem_nat, nth_error_nth'; lia).
  assert (G1 : getitem l (Z.of_nat i - 1) = Ok (nth (i - 1) l 0)).
  { replace (Z.of_nat i - 1)%Z with (Z.of_nat (i - 1)) by lia.
    apply getitem_nat, nth_error_nth'. lia. }
  assert (G2 : getitem l (Z.of_nat i + 1) = Ok (nth (i + 1) l 0)).
  { replace (Z.of_nat i + 1)%Z with (Z.of_nat (i + 1)) by lia.
    apply getitem_nat, nth_error_nth'. lia. }
  unfold peak_trough_step, and_then, gt_items, lt_items, trough_at, peak_at.
  rewrite G0, G1, G2. cbn [bind].
  destruct (Qltb (nth (i - 1) l 0) (nth i l 0)),
           (Qltb (nth (i + 1) l 0) (nth i l 0)),
           (Qltb (nth i l 0) (nth (i - 1) l 0)),
           (Qltb (nth i l 0) (nth (i + 1) l 0));
    cbn [bind andb negb]; rewrite ?app_nil_r; try reflexivity;
    destruct acc; reflexivity.
Qed.

Lemma peak_trough_loop (l : list Q) (idx : list nat) (acc : peaks_troughs) :
  Forall (fun i => 1 <= i /\ i + 1 < length l)%nat idx ->
  for_each (map Z.of_nat idx) (peak_trough_step l) acc =
  Ok (mkPeaksTroughs
        (peaks acc ++ map (fun i => nth i l 0) (filter (peak_at l) idx))
        (troughs acc ++ map (fun i => nth i l 0) (filter (trough_at l) idx))).
Proof.
  revert acc. induction idx as [|i idx IH]; intros acc H.
  - cbn. rewrite !app_nil_r. destruct acc; reflexivity.
  - inversion H as [|? ? [H1 H2] Hrest]; subst.
    cbn [map for_each]. rewrite peak_trough_step_interior by assumption.
    cbn [bind]. rewrite IH by assumption. cbn [peaks troughs filter].
    destruct (peak_at l i), (trough_at l i); cbn [map];
      rewrite <- ?app_assoc; reflexivity.
Qed.

(** The positions the loop of [peak_trough_analysis] visits. *)
Lemma interior_range (l : list Q) :
  range 1 (len l - 1) = map Z.of_nat (seq 1 (length l - 2)).
Proof.
  unfold len. destruct (le_lt_dec 2 (length l)) as [H|H].
  - replace (Z.of_nat (length l) - 1)%Z
      with (Z.of_nat (1 + (length l - 2))) by lia.
    apply (range_of_nat 1).
  - rewrite range_nil by lia.
    replace (length l - 2)%nat with 0%nat by lia. reflexivity.
Qed.

Lemma peak_trough_analysis_filter (l : list Q) :
  peak_trough_analysis l =
  Ok (mkPeaksTroughs
        (map (fun i => nth i l 0) (filter (peak_at l) (seq 1 (length l - 2))))
        (map (fun i => nth i l 0)
             (filter (trough_at l) (seq 1 (length l - 2))))).
Proof.
  unfold peak_trough_analysis. rewrite interior_range.
  rewrite peak_trough_loop; [reflexivity|].
  apply Forall_forall. intros i Hi. apply in_seq in Hi. lia.
Qed.

Lemma seq_strongly_sorted (a n : nat) : StronglySorted lt (seq a n).
Proof.
  revert a. induction n as [|n IH]; intro a; cbn; constructor.
  - apply IH.
  - apply Forall_forall. intros x Hx. apply in_seq in Hx. lia.
Qed.

Lemma filter_strongly_sorted {A : Type} (R : A -> A -> Prop) (f : A -> bool)
      (l : list A) :
  StronglySorted R l -> StronglySorted R (filter f l).
Proof.
  induction 1 as [|a l Hs IH Ha]; cbn; [constructor|].
  destruct (f a); [|exact IH]. constructor; [exact IH|].
  apply Forall_forall. intros x Hx. apply filter_In in Hx.
  rewrite Forall_forall in Ha. apply Ha. tauto.
Qed.

(** C6, as the specification states it, fails: two prices, and one bar,
    give the ordinary empty results and no error. *)
Lemma short_input_returns_empty :
  (len [1; 2] < 3)%Z /\
  peak_trough_analysis [1; 2] = Ok (mkPeaksTroughs [] []) /\
  ~ raises (peak_trough_analysis [1; 2]) /\
  (len [mkCandle 0 100 102 103 99] < 2)%Z /\
  detect_patterns [mkCandle 0 100 102 103 99] = Ok [] /\
  ~ raises (detect_patterns [mkCandle 0 100 102 103 99]).
Proof.
  repeat split; try reflexivity; intros [e He]; discriminate He.
Qed.

(** C6, amended. On fewer than three prices [peak_trough_analysis] raises
    nothing and returns empty peaks and empty troughs; on fewer than two
    bars [detect_patterns] raises nothing and returns the empty list. *)
Theorem short_input_empty_result :
  (forall l : list Q,
      (len l < 3)%Z -> peak_trough_analysis l = Ok (mkPeaksTroughs [] [])) /\
  (forall data : list Candle,
      (len data < 2)%Z -> detect_patterns data = Ok []).
Proof.
  split.
  - intros l H. rewrite peak_trough_analysis_filter.
    unfold len in H. replace (length l - 2)%nat with 0%nat by lia.
    reflexivity.
  - intros data H. rewrite detect_patterns_classify.
    destruct data as [|a [|b data]]; try reflexivity.
    unfold len in H. cbn in H. lia.
Qed.

Lemma short_input_empty_result_witness :
  peak_trough_analysis [1; 2] = Ok (mkPeaksTroughs [] []) /\
  detect_patterns [mkCandle 0 100 102 103 99] = Ok [].
Proof.
  split.
  - apply (proj1 short_input_empty_result [1; 2]). reflexivity.
  - apply (proj2 short_input_empty_result [mkCandle 0 100 102 103 99]).
    reflexivity.
Defined.

(** C10. [peak_trough_analysis] returns, in the order of the positions, the
    prices at the interior positions strictly above both neighbours as
    peaks and those strictly below both as troughs: the first and the last
    position are never among them, and neither is a position with an equal
    neighbour; on [1,3,2,5,1] the peaks are [3,5] and the troughs [2]. *)
Theorem peak_trough_interior_strict :
  peak_trough_analysis [1; 3; 2; 5; 1] = Ok (mkPeaksTroughs [3; 5] [2]) /\
  forall l : list Q,
  exists ip it : list nat,
    peak_trough_analysis l =
    Ok (mkPeaksTroughs (map (fun i => nth i l 0) ip)
                       (map (fun i => nth i l 0) it)) /\
    StronglySorted lt ip /\ StronglySorted lt it /\
    (forall i, In i ip <->
               (1 <= i /\ i + 1 < length l)%nat /\
               nth (i - 1) l 0 < nth i l 0 /\ nth (i + 1) l 0 < nth i l 0) /\
    (forall i, In i it <->
               (1 <= i /\ i + 1 < length l)%nat /\
               nth i l 0 < nth (i - 1) l 0 /\ nth i l 0 < nth (i + 1) l 0) /\
    ~ In 0%nat (ip ++ it) /\ ~ In (length l - 1)%nat (ip ++ it) /\
    (forall i, nth i l 0 == nth (i - 1) l 0 \/ nth i l 0 == nth (i + 1) l 0 ->
               ~ In i (ip ++ it)).
Proof.
  split; [reflexivity|]. intro l.
  exists (filter (peak_at l) (seq 1 (length l - 2))),
         (filter (trough_at l) (seq 1 (length l - 2))).
  assert (Hp : forall i, In i (filter (peak_at l) (seq 1 (length l - 2))) <->
               (1 <= i /\ i + 1 < length l)%nat /\
               nth (i - 1) l 0 < nth i l 0 /\ nth (i + 1) l 0 < nth i l 0).
  { intro i. rewrite filter_In, in_seq. unfold peak_at.
    rewrite andb_true_iff, !Qltb_iff. split; intros [? ?]; split; auto; lia. }
  assert (Ht : forall i, In i (filter (trough_at l) (seq 1 (length l - 2))) <->
               (1 <= i /\ i + 1 < length l)%nat /\
               nth i l 0 < nth (i - 1) l 0 /\ nth i l 0 < nth (i + 1) l 0).
  { intro i. rewrite filter_In, in_seq. unfold trough_at, peak_at.
    rewrite !andb_true_iff, negb_true_iff, andb_false_iff, !Qltb_iff,
      !Qltb_false_iff.
    split.
    - intros [? [_ ?]]. split; [lia | assumption].
    - intros [? [H1 H2]]. split; [lia|]. split; [left; lra | auto]. }
  split; [apply peak_trough_analysis_filter|].
  split; [apply filter_strongly_sorted, seq_strongly_sorted|].
  split; [apply filter_strongly_sorted, seq_strongly_sorted|].
  split; [exact Hp|]. split; [exact Ht|].
  split; [|split].
  - intro H. apply in_app_or in H. destruct H as [H|H];
      [apply Hp in H | apply Ht in H]; lia.
  - intro H. apply in_app_or in H. destruct H as [H|H];
      [apply Hp in H | apply Ht in H]; lia.
  - intros i Htie H. apply in_app_or in H. destruct H as [H|H];
      [apply Hp in H | apply Ht in H];
      destruct H as [_ [H1 H2]]; destruct Htie as [E|E];
      rewrite E in *; lra.
Qed.

Lemma peak_trough_interior_strict_witness :
  exists ip it : list nat,
    peak_trough_analysis [1; 2; 2; 1] =
    Ok (mkPeaksTroughs (map (fun i => nth i [1; 2; 2; 1] 0) ip)
                       (map (fun i => nth i [1; 2; 2; 1] 0) it)) /\
    ~ In 1%nat (ip ++ it).
Proof.
  destruct (proj2 peak_trough_interior_strict [1; 2; 2; 1])
    as (ip & it & E & _ & _ & _ & _ & _ & _ & Htie).
  exists ip, it. split; [exact E|]. apply Htie. right. reflexivity.
Defined.

(** ** indicators.py: exponential average and MACD *)

(** The integer arguments the library accepts. *)
Ltac arg_range := unfold span_limit, int64_limit in *; lia.

(** The weight of a span. *)
Lemma span_alpha (period : Z) :
  (1 <= period)%Z ->
  1 / (1 + (inject_Z period - 1) / 2) == 2 / (inject_Z period + 1).
Proof.
  intro H.
  assert (Hq : 1 <= inject_Z period).
  { change 1 with (inject_Z 1). rewrite <- Zle_Qle. exact H. }
  field. intro E. lra.
Qed.

(** One step of the recursion on numbers: the new average is the weighted
    sum of the price and the old average, and it is the old average itself
    when the price equals it. *)
Lemma ewm_step_number (com alpha w p : Q) (n : Z) :
  exists w',
    ewm_step com alpha (mkEwm (Some w) n 1) (Some p)
    = mkEwm (Some w') (n + 1) 1 /\
    w' == alpha * p + (1 - alpha) * w /\
    (p == w -> w' = w).
Proof.
  unfold ewm_step. cbn [weighted ewm_nobs old_wt].
  destruct (Qeq_bool w p) eqn:E.
  - exists w. split; [reflexivity|]. split; [|reflexivity].
    apply Qeq_bool_iff in E. rewrite <- E. ring.
  - eexists. split; [reflexivity|]. split.
    + destruct (Qeq_bool com 1); field; intro H; ring_simplify in H;
        discriminate H.
    + intro H. apply Qeq_bool_neq in E. exfalso. apply E. symmetry. exact H.
Qed.

(** The recursion on a Series without NaN: every cell of the result holds
    a number.  [w] is the value carried in, the cell before the first. *)
Lemma ewm_loop_steps (com alpha : Q) (l : list Q) :
  forall (w : Q) (n : Z),
    (1 <= n)%Z ->
    exists vals,
      ewm_loop com alpha 1 (mkEwm (Some w) n 1) (map Some l) = map Some vals /\
      ema_chain alpha w l vals /\
      ema_keeps w l vals.
Proof.
  induction l as [|p l IH]; intros w n Hn.
  - exists []. repeat split.
  - cbn [map ewm_loop].
    destruct (ewm_step_number com alpha w p n) as (w' & Est & Hw' & Hk).
    rewrite Est.
    destruct (IH w' (n + 1)%Z ltac:(lia)) as (vals & Eloop & Hchain & Hkeep).
    exists (w' :: vals). split; [|split].
    + rewrite Eloop. unfold ewm_out. cbn [ewm_nobs weighted map].
      destruct (Z.leb_spec 1 (n + 1)); [reflexivity | lia].
    + split; assumption.
    + split; assumption.
Qed.

Lemma ewm_mean_steps (p0 : Q) (l : list Q) (span : Z) :
  (1 <= span < span_limit)%Z ->
  exists vals,
    ewm_mean (map Some (p0 :: l)) span = Ok (map Some (p0 :: vals)) /\
    ema_chain (span_weight span) p0 l vals /\
    ema_keeps p0 l vals.
Proof.
  intro H. unfold ewm_mean.
  destruct (Z.ltb_spec span 1); [lia|].
  destruct (Z.leb_spec span_limit span); [lia|].
  destruct (ewm_loop_steps (span_com span) (span_weight span) l p0 1
              ltac:(lia)) as (vals & E & Hc & Hk).
  exists vals. split; [|split; assumption].
  unfold span_com, span_weight in E. cbn [map ewm_kernel]. rewrite E.
  reflexivity.
Qed.


Module EmaRounding.

Import Floats.
Local Open Scope float_scope.


End EmaRounding.



(** On a run of prices all equal to the value carried in, the recursion
    leaves that value untouched. *)
Lemma ewm_loop_constant (com alpha : Q) (l : list Q) :
  forall (w : Q) (n : Z),
    (1 <= n)%Z ->
    Forall (fun p => p == w) l ->
    ewm_loop com alpha 1 (mkEwm (Some w) n 1) (map Some l) =
    map Some (repeat w (length l)).
Proof.
  induction l as [|p l IH]; intros w n Hn Hall; [reflexivity|].
  inversion Hall as [|? ? Hp Hrest]; subst.
  cbn [map ewm_loop length repeat]. unfold ewm_step.
  cbn [weighted ewm_nobs old_wt].
  assert (E : Qeq_bool w p = true) by (apply Qeq_bool_iff; symmetry; exact Hp).
  rewrite E. unfold ewm_out at 1. cbn [ewm_nobs weighted].
  destruct (Z.leb_spec 1 (n + 1)) as [_|Hbad]; [|lia].
  rewrite IH by (assumption || lia). reflexivity.
Qed.

Lemma ewm_mean_constant (l : list Q) (c : Q) (span : Z) :
  (1 <= span < span_limit)%Z ->
  Forall (fun p => p == c) l ->
  ewm_mean (map Some l) span = Ok (map Some (repeat (hd c l) (length l))).
Proof.
  intros Hs Hall. unfold ewm_mean.
  destruct (Z.ltb_spec span 1) as [Hlt|_]; [lia|].
  destruct (Z.leb_spec span_limit span) as [Hbig|_]; [lia|].
  destruct l as [|p0 l]; [reflexivity|].
  inversion Hall as [|? ? Hp Hrest]; subst.
  cbn [map ewm_kernel hd length repeat]. unfold ewm_out.
  cbn [ewm_nobs weighted]. rewrite ewm_loop_constant; [reflexivity | lia |].
  apply Forall_forall. intros x Hx. rewrite Forall_forall in Hrest.
  rewrite (Hrest x Hx). symmetry. exact Hp.
Qed.

Lemma series_sub_repeat (a b : Q) (n : nat) :
  series_sub (map Some (repeat a n)) (map Some (repeat b n)) =
  map Some (repeat (a - b) n).
Proof.
  induction n as [|n IH]; [reflexivity|].
  cbn [repeat map series_sub cell_sub]. rewrite IH. reflexivity.
Qed.

(** C4. On a price list whose values are all equal, [calculate_macd]
    returns a MACD line and a signal line as long as the prices, every cell
    of which holds a number equal to zero. *)
Theorem calculate_macd_constant (l : list Q) (c : Q) :
  Forall (fun p => p == c) l ->
  exists macd signal_line : list Q,
    calculate_macd (py_list l) = Ok (map Some macd, map Some signal_line) /\
    length macd = length l /\
    length signal_line = length l /\
    Forall (fun x => x == 0) macd /\
    Forall (fun x => x == 0) signal_line.
Proof.
  intro Hall.
  exists (repeat (hd c l - hd c l) (length l)),
         (repeat (hd c l - hd c l) (length l)).
  assert (Hzero : Forall (fun x => x == 0)
                         (repeat (hd c l - hd c l) (length l))).
  { apply Forall_forall. intros x Hx. apply repeat_spec in Hx. subst x. ring. }
  split; [|rewrite repeat_length; auto].
  unfold calculate_macd, calculate_ema. cbn [mkSeries].
  rewrite (ewm_mean_constant l c 12) by (assumption || arg_range).
  rewrite (ewm_mean_constant l c 26) by (assumption || arg_range).
  cbn [bind]. rewrite series_sub_repeat.
  rewrite (ewm_mean_constant _ (hd c l - hd c l) 9).
  - cbn [bind]. rewrite repeat_length.
    destruct (length l); reflexivity.
  - arg_range.
  - apply Forall_forall. intros x Hx. apply repeat_spec in Hx. subst x.
    reflexivity.
Qed.

Lemma calculate_macd_constant_witness :
  exists macd signal_line : list Q,
    calculate_macd (py_list [5; 10 # 2; 5]) =
    Ok (map Some macd, map Some signal_line) /\
    Forall (fun x => x == 0) macd /\
    Forall (fun x => x == 0) signal_line.
Proof.
  destruct (calculate_macd_constant [5; 10 # 2; 5] 5)
    as (macd & signal_line & E & _ & _ & Hm & Hs).
  - repeat constructor.
  - exists macd, signal_line. auto.
Defined.

(** ** indicators.py: simple moving average *)

Lemma firstn_plus {A : Type} (m k : nat) (l : list A) :
  firstn (m + k) l = firstn m l ++ firstn k (skipn m l).
Proof.
  revert l. induction m as [|m IH]; intro l; [reflexivity|].
  destruct l as [|a l]; cbn.
  - rewrite firstn_nil. reflexivity.
  - rewrite IH. reflexivity.
Qed.

Lemma slice_split {A : Type} (l : list A) (a b c : Z) :
  (0 <= a <= b)%Z -> (b <= c)%Z ->
  slice l a c = slice l a b ++ slice l b c.
Proof.
  intros Hab Hbc. unfold slice.
  replace (Z.to_nat (c - a)) with (Z.to_nat (b - a) + Z.to_nat (c - b))%nat
    by lia.
  rewrite firstn_plus, skipn_skipn.
  replace (Z.to_nat (b - a) + Z.to_nat a)%nat with (Z.to_nat b) by lia.
  reflexivity.
Qed.

Lemma slice_map {A B : Type} (f : A -> B) (l : list A) (a b : Z) :
  slice (map f l) a b = map f (slice l a b).
Proof.
  unfold slice. rewrite skipn_map, firstn_map. reflexivity.
Qed.

Lemma slice_len {A : Type} (l : list A) (a b : Z) :
  (0 <= a <= b)%Z -> (b <= len l)%Z -> len (slice l a b) = (b - a)%Z.
Proof.
  intros Hab Hb. unfold len, slice in *.
  rewrite length_firstn, length_skipn. lia.
Qed.

Lemma Qsum_app (xs ys : list Q) : Qsum (xs ++ ys) == Qsum xs + Qsum ys.
Proof.
  induction xs as [|x xs IH].
  - change (Qsum ys == 0 + Qsum ys). ring.
  - change (x + Qsum (xs ++ ys) == (x + Qsum xs) + Qsum ys).
    rewrite IH. ring.
Qed.

Lemma negatives_cons (x : Q) (win : list Q) :
  negatives (x :: win) =
  ((if Qltb x 0 then 1 else 0) + negatives win)%Z.
Proof.
  unfold negatives, len. cbn [filter].
  destruct (Qltb x 0); cbn [length]; lia.
Qed.

Lemma negatives_app (xs ys : list Q) :
  negatives (xs ++ ys) = (negatives xs + negatives ys)%Z.
Proof.
  unfold negatives, len. rewrite filter_app, length_app. lia.
Qed.

Lemma negatives_bounds (win : list Q) :
  (0 <= negatives win <= len win)%Z.
Proof.
  induction win as [|x win IH].
  - unfold negatives, len. cbn. lia.
  - rewrite negatives_cons. unfold len in *. cbn [length].
    destruct (Qltb x 0); lia.
Qed.

Lemma Qsum_no_negatives (win : list Q) :
  negatives win = 0%Z -> 0 <= Qsum win.
Proof.
  induction win as [|x win IH]; intro H.
  - apply Qle_refl.
  - change (0 <= x + Qsum win).
    rewrite negatives_cons in H. pose proof (negatives_bounds win) as Hb.
    destruct (Qltb x 0) eqn:E; [lia|].
    apply Qltb_false_iff in E. specialize (IH ltac:(lia)). lra.
Qed.

Lemma Qsum_all_negatives (win : list Q) :
  negatives win = len win -> Qsum win <= 0.
Proof.
  induction win as [|x win IH]; intro H.
  - apply Qle_refl.
  - change (x + Qsum win <= 0).
    rewrite negatives_cons in H. pose proof (negatives_bounds win) as Hb.
    unfold len in *. cbn [length] in H.
    destruct (Qltb x 0) eqn:E; [|lia].
    apply Qltb_iff in E. specialize (IH ltac:(lia)). lra.
Qed.

Lemma holds_window_init : holds_window mean_init [].
Proof.
  repeat split.
Qed.

Lemma holds_window_add (xs : list Q) :
  forall st win,
    holds_window st win ->
    holds_window (fold_left add_mean (map Some xs) st) (win ++ xs).
Proof.
  induction xs as [|x xs IH]; intros st win H.
  - rewrite app_nil_r. exact H.
  - cbn [map fold_left].
    replace (win ++ x :: xs) with ((win ++ [x]) ++ xs)
      by (rewrite <- app_assoc; reflexivity).
    apply IH. destruct H as (Hn & Hs & Hc).
    unfold holds_window, add_mean. cbn [nobs sum_x neg_ct].
    split; [|split].
    + unfold len in *. rewrite length_app. cbn [length]. lia.
    + rewrite Qsum_app, Hs. change (Qsum [x]) with (x + 0). ring.
    + rewrite negatives_app, negatives_cons, Hc.
      destruct (Qltb x 0); unfold negatives, len; cbn; lia.
Qed.

Lemma holds_window_remove (xs : list Q) :
  forall st win,
    holds_window st (xs ++ win) ->
    holds_window (fold_left remove_mean (map Some xs) st) win.
Proof.
  induction xs as [|x xs IH]; intros st win H.
  - exact H.
  - cbn [map fold_left]. apply IH. destruct H as (Hn & Hs & Hc).
    unfold holds_window, remove_mean. cbn [nobs sum_x neg_ct].
    split; [|split].
    + unfold len in *. cbn [app length] in Hn. lia.
    + rewrite Hs. change (Qsum ((x :: xs) ++ win)) with (x + Qsum (xs ++ win)).
      ring.
    + cbn [app] in Hc. rewrite negatives_cons in Hc.
      destruct (Qltb x 0); lia.
Qed.

(** The cell computed from an accumulator that holds a window. *)
Lemma calc_mean_window (minp : Z) (st : mean_state) (win : list Q) :
  holds_window st win ->
  (1 <= len win)%Z ->
  ((len win < minp)%Z -> calc_mean minp st = NaN) /\
  ((minp <= len win)%Z ->
   exists v, calc_mean minp st = Some v /\ v == mean win).
Proof.
  intros (Hn & Hs & Hc) Hlen. unfold calc_mean. rewrite Hn, Hc. split.
  - intro H. destruct (Z.leb_spec minp (len win)); [lia | reflexivity].
  - intro H.
    destruct (Z.leb_spec minp (len win)) as [_|Hbad]; [|lia].
    destruct (Z.ltb_spec 0 (len win)) as [Hpos|Hbad]; [|lia].
    cbn [andb].
    assert (Hq : 0 < inject_Z (len win)).
    { change 0 with (inject_Z 0). rewrite <- Zlt_Qlt. exact Hpos. }
    assert (Hmean : sum_x st / inject_Z (len win) == mean win).
    { unfold mean. rewrite Hs. reflexivity. }
    destruct ((negatives win =? 0)%Z &&
              Qltb (sum_x st / inject_Z (len win)) 0) eqn:E1.
    { exfalso. apply andb_true_iff in E1. destruct E1 as [E0 Elt].
      apply Z.eqb_eq in E0. apply Qltb_iff in Elt.
      pose proof (Qsum_no_negatives win E0) as Hsum.
      rewrite <- Hs in Hsum.
      apply (Qlt_not_le _ _ Elt). apply Qle_shift_div_l; [exact Hq|].
      lra. }
    destruct ((negatives win =? len win)%Z &&
              Qltb 0 (sum_x st / inject_Z (len win))) eqn:E2.
    { exfalso. apply andb_true_iff in E2. destruct E2 as [E0 Elt].
      apply Z.eqb_eq in E0. apply Qltb_iff in Elt.
      pose proof (Qsum_all_negatives win E0) as Hsum.
      rewrite <- Hs in Hsum.
      apply (Qlt_not_le _ _ Elt). apply Qle_shift_div_r; [exact Hq|].
      lra. }
    eexists. split; [reflexivity | exact Hmean].
Qed.

Lemma roll_mean_loop_cons (values : Series) (minp s e : Z)
      (rest : list (Z * Z)) (prev : option (Z * Z)) (st : mean_state) :
  roll_mean_loop values minp ((s, e) :: rest) prev st =
  let st' :=
    match prev with
    | Some (ps, pe) =>
        if (pe <=? s)%Z then fold_left add_mean (slice values s e) mean_init
        else fold_left add_mean (slice values pe e)
               (fold_left remove_mean (slice values ps s) st)
    | None => fold_left add_mean (slice values s e) mean_init
    end in
  calc_mean minp st' :: roll_mean_loop values minp rest (Some (s, e)) st'.
Proof.
  reflexivity.
Qed.

(** The accumulator after the window moved to end at position [k]. *)
Lemma window_moves (l : list Q) (w k : Z) (prev : option (Z * Z))
      (st : mean_state) :
  (1 <= w)%Z -> (0 <= k < len l)%Z ->
  (k = 0%Z /\ prev = None \/
   (1 <= k)%Z /\ prev = Some (Z.max 0 (k - w), k) /\
   holds_window st (slice l (Z.max 0 (k - w)) k)) ->
  holds_window
    match prev with
    | Some (ps, pe) =>
        if (pe <=? Z.max 0 (k + 1 - w))%Z
        then fold_left add_mean
               (slice (map Some l) (Z.max 0 (k + 1 - w)) (k + 1)) mean_init
        else fold_left add_mean (slice (map Some l) pe (k + 1))
               (fold_left remove_mean
                  (slice (map Some l) ps (Z.max 0 (k + 1 - w))) st)
    | None => fold_left add_mean
                (slice (map Some l) (Z.max 0 (k + 1 - w)) (k + 1)) mean_init
    end
    (slice l (Z.max 0 (k + 1 - w)) (k + 1)).
Proof.
  intros Hw Hk [[H0 Hprev] | (H1 & Hprev & Hst)]; subst prev.
  - rewrite slice_map. apply (holds_window_add _ mean_init []).
    apply holds_window_init.
  - destruct (Z.leb_spec k (Z.max 0 (k + 1 - w))) as [Hdisj|Hover].
    + rewrite slice_map. apply (holds_window_add _ mean_init []).
      apply holds_window_init.
    + rewrite !slice_map.
      rewrite (slice_split l (Z.max 0 (k + 1 - w)) k (k + 1)) by lia.
      apply holds_window_add. apply holds_window_remove.
      rewrite <- (slice_split l (Z.max 0 (k - w)) (Z.max 0 (k + 1 - w)) k)
        by lia.
      exact Hst.
Qed.

Lemma roll_mean_loop_cells (l : list Q) (w : Z) :
  (1 <= w)%Z ->
  forall (m : nat) (k : Z) (prev : option (Z * Z)) (st : mean_state),
    (0 <= k)%Z -> (k + Z.of_nat m = len l)%Z ->
    (k = 0%Z /\ prev = None \/
     (1 <= k)%Z /\ prev = Some (Z.max 0 (k - w), k) /\
     holds_window st (slice l (Z.max 0 (k - w)) k)) ->
    Forall2 (sma_cell l w) (range k (len l))
      (roll_mean_loop (map Some l) w
         (map (fun e => (clip 0 (len l) (e - w), clip 0 (len l) e))
              (range (k + 1) (len l + 1)))
         prev st).
Proof.
  intro Hw. induction m as [|m IH]; intros k prev st Hk Hm Hprev.
  - rewrite !range_nil by lia. constructor.
  - rewrite (range_cons k (len l)) by lia.
    rewrite (range_cons (k + 1) (len l + 1)) by lia.
    cbn [map]. rewrite roll_mean_loop_cons.
    replace (clip 0 (len l) (k + 1 - w)) with (Z.max 0 (k + 1 - w))
      by (unfold clip; lia).
    replace (clip 0 (len l) (k + 1)) with (k + 1)%Z by (unfold clip; lia).
    pose proof (window_moves l w k prev st Hw ltac:(lia) Hprev) as Hst'.
    cbv zeta.
    set (st' := match prev with
                | Some (ps, pe) => _
                | None => _
                end) in *.
    constructor.
    + assert (Hlen : len (slice l (Z.max 0 (k + 1 - w)) (k + 1)) =
                     (k + 1 - Z.max 0 (k + 1 - w))%Z)
        by (apply slice_len; lia).
      destruct (calc_mean_window w st' _ Hst' ltac:(lia)) as [Hnan Hval].
      split.
      * intro Hi. apply Hnan. lia.
      * intro Hi. destruct (Hval ltac:(lia)) as (v & Ev & Hv).
        exists v. split; [exact Ev|].
        replace (k - w + 1)%Z with (Z.max 0 (k + 1 - w)) by lia.
        exact Hv.
    + apply IH; [lia | lia |].
      right. split; [lia|]. split.
      * reflexivity.
      * exact Hst'.
Qed.

Lemma Forall2_range_nth {B : Type} (P : Z -> B -> Prop) (n : nat) :
  forall (k : Z) (out : list B),
    Forall2 P (range k (k + Z.of_nat n)) out ->
    length out = n /\
    forall j, (j < n)%nat ->
              exists c, nth_error out j = Some c /\ P (k + Z.of_nat j)%Z c.
Proof.
  induction n as [|n IH]; intros k out H.
  - rewrite range_nil in H by lia. inversion H. split; [reflexivity|].
    intros j Hj. lia.
  - replace (k + Z.of_nat (S n))%Z with (k + 1 + Z.of_nat n)%Z in H by lia.
    rewrite range_cons in H by lia. inversion H as [|? c ? rest Hc Hrest];
      subst.
    destruct (IH _ _ Hrest) as [Hlen Hnth]. split; [cbn; lia|].
    intros [|j] Hj.
    + exists c. split; [reflexivity|]. rewrite Z.add_0_r. exact Hc.
    + destruct (Hnth j ltac:(lia)) as (c' & E & Hc').
      exists c'. split; [exact E|].
      replace (k + Z.of_nat (S j))%Z with (k + 1 + Z.of_nat j)%Z by lia.
      exact Hc'.
Qed.

(** The cells of the simple moving average of a price list, for a period
    the kernel accepts; in exact arithmetic the cell of a full window is
    the mean of the window. *)
Lemma calculate_sma_cells (l : list Q) (period : Z) :
  (1 <= period < int64_limit)%Z ->
  exists sma,
    calculate_sma (py_list l) period = Ok sma /\
    Forall2 (sma_cell l period) (range 0 (len l)) sma.
Proof.
  intro Hp. unfold calculate_sma, rolling_mean.
  destruct (Z.ltb_spec period 0) as [Hneg|_]; [lia|].
  destruct (Z.leb_spec int64_limit period) as [Hbig|_]; [lia|].
  cbn [bind mkSeries]. unfold get_window_bounds.
  replace (@len cell (map Some l)) with (len l)
    by (unfold len; rewrite length_map; reflexivity).
  eexists. split; [reflexivity|].
  apply (roll_mean_loop_cells l period ltac:(lia) (length l) 0 None mean_init);
    [lia | unfold len; lia | left; split; reflexivity].
Qed.


Module SmaRounding.

Import Floats.
Local Open Scope float_scope.

(** Where a window is full the cell holds the compensated running sum
    divided by the count, rounded: on the floats 0.1, 0.2, 0.3 with period
    three it is 0.19999999999999998, which is neither the float nearest to
    their mean nor the quotient of their float sum by three. *)
Lemma calculate_sma_rounds :
  F64.calculate_sma [0.1; 0.2; 0.3] 3 = Ok [nan; nan; 0.19999999999999998] /\
  (0.19999999999999998 =? 0.2) = false /\
  (0.19999999999999998 =? (0.1 + 0.2 + 0.3) / 3) = false.
Proof.
  repeat split; reflexivity.
Qed.

End SmaRounding.



(** ** indicators.py: levels by frequency *)

Lemma Qeq_bool_left (u u' x : Q) : u == u' -> Qeq_bool u x = Qeq_bool u' x.
Proof.
  intro H. destruct (Qeq_bool u x) eqn:E1, (Qeq_bool u' x) eqn:E2;
    try reflexivity.
  - apply Qeq_bool_iff in E1. apply Qeq_bool_neq in E2.
    exfalso. apply E2. rewrite <- H. exact E1.
  - apply Qeq_bool_neq in E1. apply Qeq_bool_iff in E2.
    exfalso. apply E1. rewrite H. exact E2.
Qed.

Lemma Qeq_bool_swap (x y : Q) : Qeq_bool x y = Qeq_bool y x.
Proof.
  destruct (Qeq_bool x y) eqn:E1, (Qeq_bool y x) eqn:E2; try reflexivity.
  - apply Qeq_bool_iff in E1. apply Qeq_bool_neq in E2.
    exfalso. apply E2. symmetry. exact E1.
  - apply Qeq_bool_neq in E1. apply Qeq_bool_iff in E2.
    exfalso. apply E1. symmetry. exact E2.
Qed.

Lemma occurrences_cons (u x : Q) (l : list Q) :
  occurrences u (x :: l) =
  ((if Qeq_bool u x then 1 else 0) + occurrences u l)%Z.
Proof.
  unfold occurrences, len. cbn [filter].
  destruct (Qeq_bool u x); cbn [length]; lia.
Qed.

Lemma occurrences_Qeq (u u' : Q) (l : list Q) :
  u == u' -> occurrences u l = occurrences u' l.
Proof.
  intro H. induction l as [|x l IH]; [reflexivity|].
  rewrite !occurrences_cons, IH, (Qeq_bool_left u u' x H). reflexivity.
Qed.

Lemma count_of_insert (u v : Q) (table : list (Q * Z)) :
  count_of u (count_insert v table) =
  (count_of u table + (if Qeq_bool u v then 1 else 0))%Z.
Proof.
  induction table as [|[k n] rest IH].
  - cbn [count_insert count_of]. rewrite (Qeq_bool_swap v u). lia.
  - cbn [count_insert]. destruct (Qeq_bool k v) eqn:E.
    + cbn [count_of]. apply Qeq_bool_iff in E.
      rewrite (Qeq_bool_swap u v), <- (Qeq_bool_left k v u E).
      destruct (Qeq_bool k u); lia.
    + cbn [count_of]. rewrite IH. lia.
Qed.

(** The table after counting a price list gives every value the number of
    its occurrences. *)
Lemma count_of_fold (u : Q) (l : list Q) :
  forall table,
    count_of u (fold_left count_cell (map Some l) table) =
    (count_of u table + occurrences u l)%Z.
Proof.
  induction l as [|x l IH]; intro table.
  - cbn. unfold occurrences, len. cbn. lia.
  - cbn [map fold_left count_cell]. rewrite IH, count_of_insert,
      occurrences_cons. lia.
Qed.

Lemma keys_count_insert (x v : Q) (table : list (Q * Z)) :
  InA Qeq x (map fst (count_insert v table)) ->
  InA Qeq x (map fst table) \/ x == v.
Proof.
  induction table as [|[k n] rest IH]; cbn [count_insert].
  - intro H. inversion H as [? ? E|? ? E]; subst; [right; exact E|].
    inversion E.
  - destruct (Qeq_bool k v).
    + intro H. left. exact H.
    + cbn [map fst]. intro H. apply InA_cons in H. destruct H as [H|H].
      * left. apply InA_cons_hd. exact H.
      * destruct (IH H) as [H'|H']; [left; apply InA_cons_tl; exact H'|].
        right. exact H'.
Qed.

Lemma nodup_count_insert (v : Q) (table : list (Q * Z)) :
  NoDupA Qeq (map fst table) ->
  NoDupA Qeq (map fst (count_insert v table)).
Proof.
  induction table as [|[k n] rest IH]; cbn [count_insert]; intro H.
  - cbn. constructor; [|constructor]. intro E. inversion E.
  - destruct (Qeq_bool k v) eqn:E; [exact H|].
    cbn [map fst] in *. inversion H as [|? ? Hk Hrest]; subst.
    constructor; [|apply IH; exact Hrest].
    intro Hin. apply keys_count_insert in Hin. destruct Hin as [Hin|Hin].
    + apply Hk. exact Hin.
    + apply Qeq_bool_neq in E. apply E. exact Hin.
Qed.

Lemma positive_count_insert (v : Q) (table : list (Q * Z)) :
  Forall (fun kv => 1 <= snd kv)%Z table ->
  Forall (fun kv => 1 <= snd kv)%Z (count_insert v table).
Proof.
  induction table as [|[k n] rest IH]; cbn [count_insert]; intro H.
  - constructor; [cbn [snd]; lia | constructor].
  - inversion H as [|? ? Hn Hrest]; subst. cbn [snd] in Hn.
    destruct (Qeq_bool k v).
    + constructor; [cbn [snd]; lia | exact Hrest].
    + constructor; [exact Hn | apply IH; exact Hrest].
Qed.

Lemma counting_table_invariant (l : list Q) :
  forall table,
    NoDupA Qeq (map fst table) ->
    Forall (fun kv => 1 <= snd kv)%Z table ->
    NoDupA Qeq (map fst (fold_left count_cell (map Some l) table)) /\
    Forall (fun kv => 1 <= snd kv)%Z
           (fold_left count_cell (map Some l) table).
Proof.
  induction l as [|x l IH]; intros table Hnd Hpos.
  - split; assumption.
  - cbn [map fold_left count_cell]. apply IH.
    + apply nodup_count_insert. exact Hnd.
    + apply positive_count_insert. exact Hpos.
Qed.

Lemma count_of_absent (u : Q) (table : list (Q * Z)) :
  ~ InA Qeq u (map fst table) -> count_of u table = 0%Z.
Proof.
  induction table as [|[k n] rest IH]; intro H; [reflexivity|].
  cbn [count_of]. cbn [map fst] in H.
  destruct (Qeq_bool k u) eqn:E.
  - exfalso. apply H. apply InA_cons_hd. apply Qeq_bool_iff in E.
    symmetry. exact E.
  - rewrite IH; [lia|]. intro Hin. apply H. apply InA_cons_tl. exact Hin.
Qed.

Lemma count_of_entry (k : Q) (n : Z) (table : list (Q * Z)) :
  NoDupA Qeq (map fst table) ->
  In (k, n) table ->
  count_of k table = n.
Proof.
  induction table as [|[k' n'] rest IH]; intros Hnd Hin; [inversion Hin|].
  cbn [map fst] in Hnd. inversion Hnd as [|? ? Hk Hrest]; subst.
  cbn [count_of]. destruct Hin as [E|Hin].
  - inversion E; subst. rewrite count_of_absent by exact Hk.
    assert (Er : Qeq_bool k k = true) by (apply Qeq_bool_iff; reflexivity).
    rewrite Er. lia.
  - rewrite (IH Hrest Hin).
    destruct (Qeq_bool k' k) eqn:E; [|lia].
    exfalso. apply Hk. apply Qeq_bool_iff in E.
    apply InA_alt. exists k. split; [exact E|].
    apply in_map_iff. exists (k, n). split; [reflexivity | exact Hin].
Qed.

Lemma count_of_present (u : Q) (table : list (Q * Z)) :
  count_of u table <> 0%Z ->
  exists k n, In (k, n) table /\ k == u.
Proof.
  induction table as [|[k n] rest IH]; intro H; [exfalso; apply H; reflexivity|].
  cbn [count_of] in H. destruct (Qeq_bool k u) eqn:E.
  - exists k, n. split; [left; reflexivity|]. apply Qeq_bool_iff. exact E.
  - destruct (IH ltac:(lia)) as (k' & n' & Hin & Hk).
    exists k', n'. split; [right; exact Hin | exact Hk].
Qed.

Lemma in_insert_by_count (x y : Q * Z) (sorted : list (Q * Z)) :
  In x (insert_by_count y sorted) <-> x = y \/ In x sorted.
Proof.
  induction sorted as [|z rest IH]; cbn [insert_by_count].
  - cbn. intuition congruence.
  - destruct (snd z <=? snd y)%Z.
    + cbn. intuition congruence.
    + cbn [In]. rewrite IH. intuition congruence.
Qed.

Lemma in_sort_by_count (x : Q * Z) (table : list (Q * Z)) :
  In x (sort_by_count table) <-> In x table.
Proof.
  unfold sort_by_count. induction table as [|y rest IH]; [reflexivity|].
  cbn [fold_right]. rewrite in_insert_by_count, IH. cbn. intuition congruence.
Qed.

Lemma keys_in (x : Q) (table : list (Q * Z)) :
  InA Qeq x (map fst table) <-> exists k n, In (k, n) table /\ x == k.
Proof.
  rewrite InA_alt. split.
  - intros (y & Hy & Hin). apply in_map_iff in Hin.
    destruct Hin as ([k n] & Ek & Hin). cbn in Ek. subst y.
    exists k, n. auto.
  - intros (k & n & Hin & Hk). exists k. split; [exact Hk|].
    apply in_map_iff. exists (k, n). auto.
Qed.

Lemma nodup_insert_by_count (y : Q * Z) (sorted : list (Q * Z)) :
  ~ InA Qeq (fst y) (map fst sorted) ->
  NoDupA Qeq (map fst sorted) ->
  NoDupA Qeq (map fst (insert_by_count y sorted)).
Proof.
  induction sorted as [|z rest IH]; cbn [insert_by_count]; intros Hy Hnd.
  - cbn. constructor; [exact Hy | constructor].
  - destruct (snd z <=? snd y)%Z.
    + cbn [map]. constructor; assumption.
    + cbn [map] in *. inversion Hnd as [|? ? Hz Hrest]; subst.
      constructor.
      * intro Hin. apply keys_in in Hin.
        destruct Hin as (k & n & Hin & Hk).
        apply in_insert_by_count in Hin. destruct Hin as [E|Hin].
        -- subst y. apply Hy. apply InA_cons_hd. cbn [fst].
           symmetry. exact Hk.
        -- apply Hz. apply keys_in. exists k, n. auto.
      * apply IH; [|exact Hrest].
        intro Hin. apply Hy. apply InA_cons_tl. exact Hin.
Qed.

Lemma nodup_sort_by_count (table : list (Q * Z)) :
  NoDupA Qeq (map fst table) ->
  NoDupA Qeq (map fst (sort_by_count table)).
Proof.
  unfold sort_by_count. induction table as [|y rest IH]; intro H.
  - constructor.
  - cbn [map fold_right] in *. inversion H as [|? ? Hy Hrest]; subst.
    apply nodup_insert_by_count; [|apply IH; exact Hrest].
    intro Hin. apply Hy. apply keys_in in Hin.
    destruct Hin as (k & n & Hin & Hk).
    apply keys_in. exists k, n. split; [|exact Hk].
    apply (in_sort_by_count (k, n) rest). exact Hin.
Qed.

Lemma nodup_keys_filter (f : Q * Z -> bool) (table : list (Q * Z)) :
  NoDupA Qeq (map fst table) ->
  NoDupA Qeq (map fst (filter f table)).
Proof.
  induction table as [|y rest IH]; intro H; [constructor|].
  cbn [map filter] in *. inversion H as [|? ? Hy Hrest]; subst.
  destruct (f y); [|apply IH; exact Hrest].
  cbn [map]. constructor; [|apply IH; exact Hrest].
  intro Hin. apply Hy. apply keys_in in Hin.
  destruct Hin as (k & n & Hin & Hk). apply filter_In in Hin.
  apply keys_in. exists k, n. tauto.
Qed.

Lemma filter_none {A : Type} (f : A -> bool) (l : list A) :
  (forall x, In x l -> f x = false) -> filter f l = [].
Proof.
  induction l as [|a l IH]; intro H; [reflexivity|].
  cbn [filter]. rewrite (H a) by (left; reflexivity).
  apply IH. intros x Hx. apply H. right. exact Hx.
Qed.

(** Every level of [value_counts] has a count of at least one, and that
    count is the number of occurrences of its value. *)
Lemma value_counts_entry (l : list Q) (k : Q) (n : Z) :
  In (k, n) (value_counts (map Some l)) ->
  (1 <= n)%Z /\ n = occurrences k l.
Proof.
  unfold value_counts. intro H. apply (proj1 (in_sort_by_count _ _)) in H.
  destruct (counting_table_invariant l [] ltac:(constructor) ltac:(constructor))
    as [Hnd Hpos].
  split.
  - rewrite Forall_forall in Hpos. apply (Hpos (k, n) H).
  - rewrite <- (count_of_entry k n _ Hnd H), count_of_fold. cbn. lia.
Qed.

(** C7. Whatever the prices, the support list of
    [identify_horizontal_support_resistance] is empty, no count of
    [value_counts] being below one; the resistance list holds, each once,
    exactly the values that occur more than once. *)
Theorem support_always_empty (l : list Q) :
  (forall k n, In (k, n) (value_counts (mkSeries (py_list l))) ->
               (n <? 1)%Z = false) /\
  exists res : list Q,
    identify_horizontal_support_resistance (py_list l) =
    Ok (mkHorizontal [] res) /\
    NoDupA Qeq res /\
    forall v, InA Qeq v res <-> (1 < occurrences v l)%Z.
Proof.
  cbn [mkSeries]. split.
  { intros k n H. apply value_counts_entry in H.
    destruct (Z.ltb_spec n 1); [lia | reflexivity]. }
  unfold identify_horizontal_support_resistance. cbn [mkSeries].
  eexists. split; [|split].
  - f_equal. f_equal. unfold index_where.
    rewrite filter_none; [reflexivity|].
    intros [k n] H. apply value_counts_entry in H. cbn [snd].
    destruct (Z.ltb_spec n 1); [lia | reflexivity].
  - unfold index_where, value_counts.
    apply nodup_keys_filter, nodup_sort_by_count.
    apply (counting_table_invariant l []); constructor.
  - intro v. unfold index_where. rewrite keys_in. split.
    + intros (k & n & Hin & Hk). apply filter_In in Hin.
      destruct Hin as [Hin Hn]. cbn [snd] in Hn. apply Z.ltb_lt in Hn.
      apply value_counts_entry in Hin. destruct Hin as [_ En].
      rewrite (occurrences_Qeq v k l Hk). lia.
    + intro Hv.
      destruct (count_of_present v
                  (fold_left count_cell (map Some l) [])) as (k & n & Hin & Hk).
      { rewrite count_of_fold. cbn [count_of]. lia. }
      exists k, n. split; [|symmetry; exact Hk].
      assert (Hlev : In (k, n) (value_counts (map Some l)))
        by (apply (proj2 (in_sort_by_count _ _)); exact Hin).
      apply filter_In. split; [exact Hlev|]. cbn [snd]. apply Z.ltb_lt.
      apply value_counts_entry in Hlev. destruct Hlev as [_ En].
      rewrite En, (occurrences_Qeq k v l Hk). exact Hv.
Qed.

Lemma support_always_empty_witness :
  In (102, 2%Z) (value_counts (mkSeries (py_list historical_prices))) /\
  (2 <? 1)%Z = false.
Proof.
  assert (H : In (102, 2%Z)
                 (value_counts (mkSeries (py_list historical_prices))))
    by (left; reflexivity).
  split; [exact H|].
  exact (proj1 (support_always_empty historical_prices) 102 2%Z H).
Defined.

(** * Further properties of the code *)

(** ** patterns.py: the single-bar predicates *)

Lemma Qltb_compat (x x' y y' : Q) :
  x == x' -> y == y' -> Qltb x y = Qltb x' y'.
Proof.
  intros Hx Hy.
  destruct (Qltb x y) eqn:E1, (Qltb x' y') eqn:E2; try reflexivity.
  - apply Qltb_iff in E1. apply Qltb_false_iff in E2.
    rewrite Hx, Hy in E1. exfalso. apply (Qlt_not_le _ _ E1 E2).
  - apply Qltb_false_iff in E1. apply Qltb_iff in E2.
    rewrite Hx, Hy in E1. exfalso. apply (Qlt_not_le _ _ E2 E1).
Qed.




(** X3. [is_doji] does not tell the open from the close: exchanging them
    leaves the answer unchanged. *)
Theorem is_doji_symmetric (open_price close_price threshold : Q) :
  is_doji open_price close_price threshold =
  is_doji close_price open_price threshold.
Proof.
  unfold is_doji. apply Qltb_compat.
  - rewrite Qabs_Qminus. reflexivity.
  - field.
Qed.





(** ** patterns.py: the engulfing rule *)

Lemma Qltb_opp (a b : Q) : Qltb (- a) (- b) = Qltb b a.
Proof.
  destruct (Qltb (- a) (- b)) eqn:E1, (Qltb b a) eqn:E2; try reflexivity.
  - apply Qltb_iff in E1. apply Qltb_false_iff in E2. exfalso. lra.
  - apply Qltb_false_iff in E1. apply Qltb_iff in E2. exfalso. lra.
Qed.

(** Decide every comparison of the goal, keeping the fact it stands for. *)
Ltac decide_comparisons :=
  repeat match goal with
         | |- context [Qltb ?a ?b] =>
             let E := fresh "E" in
             destruct (Qltb a b) eqn:E;
             [apply Qltb_iff in E | apply Qltb_false_iff in E]
         end.

(** X7. [is_engulfing] answers Bearish exactly when the current open is
    above the previous close and the current close below the previous open:
    the Bullish test made first never takes a bar from it, the two
    conditions excluding each other. *)
Theorem is_engulfing_bearish_iff (po pc co cc : Q) :
  is_engulfing po pc co cc = "Bearish"%string <-> pc < co /\ cc < po.
Proof.
  unfold is_engulfing. decide_comparisons; cbn [andb];
    (split; [try discriminate; intros _; split; assumption
            | intros [H1 H2]; try reflexivity; exfalso; lra]).
Qed.

(** X8. Mirroring the four prices about zero exchanges the answers Bullish
    and Bearish and keeps the answer None. *)
Theorem is_engulfing_mirror (po pc co cc : Q) :
  is_engulfing (- po) (- pc) (- co) (- cc) =
  mirror_kind (is_engulfing po pc co cc).
Proof.
  unfold is_engulfing. rewrite !Qltb_opp.
  decide_comparisons; cbn [andb]; try reflexivity; exfalso; lra.
Qed.

(** X9. After a bar that does not rise, a bar that does not rise is never
    Bullish; after a bar that does not fall, a bar that does not fall is
    never Bearish. *)
Theorem is_engulfing_needs_a_turn (po pc co cc : Q) :
  (pc <= po -> cc <= co ->
   is_engulfing po pc co cc <> "Bullish"%string) /\
  (po <= pc -> co <= cc ->
   is_engulfing po pc co cc <> "Bearish"%string).
Proof.
  unfold is_engulfing. split; intros H1 H2;
    decide_comparisons; cbn [andb]; try discriminate; exfalso; lra.
Qed.

Lemma is_engulfing_needs_a_turn_witness :
  is_engulfing 103 99 99 98 <> "Bullish"%string /\
  is_engulfing 99 103 98 99 <> "Bearish"%string.
Proof.
  split.
  - apply (proj1 (is_engulfing_needs_a_turn 103 99 99 98));
      vm_compute; discriminate.
  - apply (proj2 (is_engulfing_needs_a_turn 99 103 98 99));
      vm_compute; discriminate.
Defined.

(** ** patterns.py: the scan *)

Lemma classify_sequence_cons (prev cur : Candle) (rest : list Candle) :
  classify_sequence (prev :: cur :: rest) =
  classify_bar prev cur ++ classify_sequence (cur :: rest).
Proof.
  reflexivity.
Qed.

Lemma classify_bar_shape (prev cur : Candle) :
  classify_bar prev cur = [] \/
  exists kind, classify_bar prev cur = [(Date cur, kind)] /\
               In kind pattern_kinds.
Proof.
  rewrite classify_bar_unfold.
  destruct (is_doji _ _ _).
  { right. eexists. split; [reflexivity|]. cbn. auto. }
  destruct (is_hammer _ _ _ _).
  { right. eexists. split; [reflexivity|]. cbn. auto. }
  destruct (is_engulfing_cases (Open prev) (Close prev) (Open cur) (Close cur))
    as [E|[E|E]]; rewrite E; cbn.
  - right. eexists. split; [reflexivity|]. auto.
  - right. eexists. split; [reflexivity|]. auto 6.
  - left. reflexivity.
Qed.

Lemma Subseq_length {A : Type} (xs ys : list A) :
  Subseq xs ys -> (length xs <= length ys)%nat.
Proof.
  induction 1; cbn; lia.
Qed.

Lemma classify_sequence_dates (rest : list Candle) :
  forall prev,
    Subseq (map fst (classify_sequence (prev :: rest))) (map Date rest).
Proof.
  induction rest as [|cur rest IH]; intro prev.
  - constructor.
  - rewrite classify_sequence_cons, map_app. cbn [map].
    destruct (classify_bar_shape prev cur) as [E|(kind & E & _)]; rewrite E.
    + apply Subseq_skip. apply IH.
    + cbn [map fst app]. apply Subseq_keep. apply IH.
Qed.

(** X10. On every frame [detect_patterns] returns, and each event it
    returns carries one of the four names Doji, Hammer, Bullish Engulfing
    and Bearish Engulfing: the answer None of [is_engulfing] never becomes
    an event. *)
Theorem detect_patterns_kinds (data : list Candle) :
  exists events,
    detect_patterns data = Ok events /\
    Forall (fun e => In (snd e) pattern_kinds) events.
Proof.
  exists (classify_sequence data). split; [apply detect_patterns_classify|].
  apply Forall_forall. intros e He. unfold classify_sequence in He.
  apply in_flat_map in He. destruct He as ([prev cur] & _ & He).
  cbn [fst snd] in He.
  destruct (classify_bar_shape prev cur) as [E|(kind & E & Hk)];
    rewrite E in He.
  - inversion He.
  - destruct He as [He|[]]. subst e. exact Hk.
Qed.

(** X11. The dates of the events of [detect_patterns] are the dates of the
    bars after the first with some left out: they come in the order of the
    bars, a bar gives at most one event, and a frame of [n] bars gives at
    most [n - 1] events. *)
Theorem detect_patterns_dates (data : list Candle) :
  exists events,
    detect_patterns data = Ok events /\
    Subseq (map fst events) (map Date (tl data)) /\
    (length events <= length data - 1)%nat.
Proof.
  exists (classify_sequence data). split; [apply detect_patterns_classify|].
  assert (H : Subseq (map fst (classify_sequence data)) (map Date (tl data))).
  { destruct data as [|b rest]; [constructor|]. apply classify_sequence_dates. }
  split; [exact H|].
  apply Subseq_length in H. rewrite !length_map in H.
  unfold event in *.
  destruct data as [|b rest]; cbn [tl length] in *; lia.
Qed.

(** X12. A frame can be scanned in two parts that share a bar: the events
    of the whole are the events of the part up to and including that bar
    followed by the events of the part from that bar on. *)
Theorem detect_patterns_split (xs : list Candle) (y : Candle)
        (ys : list Candle) :
  exists before after,
    detect_patterns (xs ++ [y]) = Ok before /\
    detect_patterns (y :: ys) = Ok after /\
    detect_patterns (xs ++ y :: ys) = Ok (before ++ after).
Proof.
  exists (classify_sequence (xs ++ [y])), (classify_sequence (y :: ys)).
  rewrite !detect_patterns_classify. repeat split.
  destruct ys as [|cur post].
  - cbn. rewrite app_nil_r. reflexivity.
  - rewrite classify_sequence_split, classify_sequence_cons. reflexivity.
Qed.

(** X13. Of the first bar only the open and the close are read, as the
    predecessor of the second bar: its date, high and low never reach the
    result. *)
Theorem detect_patterns_first_bar (b b' : Candle) (rest : list Candle) :
  Open b = Open b' -> Close b = Close b' ->
  detect_patterns (b :: rest) = detect_patterns (b' :: rest).
Proof.
  intros Ho Hc. rewrite !detect_patterns_classify. f_equal.
  destruct rest as [|cur rest]; [reflexivity|].
  rewrite !classify_sequence_cons. f_equal.
  rewrite !classify_bar_unfold, Ho, Hc. reflexivity.
Qed.

Lemma detect_patterns_first_bar_witness :
  detect_patterns (mkCandle 0 100 102 103 99 :: tl example_data) =
  detect_patterns (mkCandle 7 100 102 200 1 :: tl example_data).
Proof.
  apply (detect_patterns_first_bar (mkCandle 0 100 102 103 99)
                                   (mkCandle 7 100 102 200 1));
    reflexivity.
Defined.

(** ** indicators.py: more on the simple moving average *)

Lemma roll_mean_loop_length (values : Series) (minp : Z)
      (bounds : list (Z * Z)) :
  forall prev st,
    length (roll_mean_loop values minp bounds prev st) = length bounds.
Proof.
  induction bounds as [|[s e] rest IH]; intros prev st; [reflexivity|].
  rewrite roll_mean_loop_cons. cbv zeta. cbn [length]. rewrite IH.
  reflexivity.
Qed.

Lemma range_length (lo hi : Z) : length (range lo hi) = Z.to_nat (hi - lo).
Proof.
  unfold range. rewrite length_map, length_seq. reflexivity.
Qed.

Lemma in_range (lo hi i : Z) : In i (range lo hi) -> (lo <= i < hi)%Z.
Proof.
  unfold range. intro H. apply in_map_iff in H.
  destruct H as (k & E & Hk). apply in_seq in Hk. lia.
Qed.

(** X14. [calculate_sma] raises the library's ValueError on every negative
    period; for every period from zero up to the largest 64-bit integer
    and every input, a Series with NaN cells included, it returns a Series
    with one cell for each cell of the input. *)
Theorem calculate_sma_aligned (data : array_like) (period : Z) :
  ((period < 0)%Z -> calculate_sma data period = Raise ValueError) /\
  ((0 <= period < 2 ^ 63)%Z ->
   exists sma,
     calculate_sma data period = Ok sma /\
     length sma = length (mkSeries data)).
Proof.
  unfold calculate_sma, rolling_mean. split; intro H.
  - destruct (Z.ltb_spec period 0); [reflexivity | lia].
  - destruct (Z.ltb_spec period 0); [lia|].
    destruct (Z.leb_spec int64_limit period); [arg_range|]. cbn [bind].
    eexists. split; [reflexivity|].
    rewrite roll_mean_loop_length. unfold get_window_bounds.
    rewrite length_map, range_length. unfold len. lia.
Qed.

Lemma calculate_sma_aligned_witness :
  calculate_sma (py_list [1; 2; 3]) (-1) = Raise ValueError /\
  exists sma,
    calculate_sma (pd_series [Some 1; NaN; Some 3]) 0 = Ok sma /\
    length sma = 3%nat.
Proof.
  split.
  - apply (proj1 (calculate_sma_aligned (py_list [1; 2; 3]) (-1))). lia.
  - apply (proj2 (calculate_sma_aligned (pd_series [Some 1; NaN; Some 3]) 0)).
    lia.
Defined.

Lemma Forall2_constant {A B : Type} (P : A -> B -> Prop) (d : B)
      (xs : list A) (ys : list B) :
  Forall2 P xs ys ->
  (forall x y, In x xs -> P x y -> y = d) ->
  ys = repeat d (length xs).
Proof.
  induction 1 as [|x y xs ys Hxy Hrest IH]; intro H; [reflexivity|].
  cbn [length repeat]. f_equal.
  - apply (H x y); [left; reflexivity | exact Hxy].
  - apply IH. intros x' y' Hin. apply H. right. exact Hin.
Qed.

(** X16. With a period above the number of prices, and within the 64-bit
    integers, no window is ever full: [calculate_sma] returns NaN in every
    cell, and raises nothing. *)
Theorem calculate_sma_short_input (l : list Q) (period : Z) :
  (len l < period < 2 ^ 63)%Z ->
  calculate_sma (py_list l) period = Ok (repeat NaN (length l)).
Proof.
  intro H.
  destruct (calculate_sma_cells l period ltac:(unfold len in H; arg_range))
    as (sma & E & Hc).
  rewrite E. f_equal.
  rewrite (Forall2_constant _ NaN _ _ Hc).
  - rewrite range_length. f_equal. unfold len. lia.
  - intros i c Hi [Hnan _]. apply in_range in Hi. apply Hnan. lia.
Qed.

Lemma calculate_sma_short_input_witness :
  calculate_sma (py_list [1; 2; 3]) 4 = Ok [NaN; NaN; NaN].
Proof.
  apply (calculate_sma_short_input [1; 2; 3] 4). unfold len. cbn. lia.
Defined.

Lemma slice_single (l : list Q) :
  forall i : nat,
    (i < length l)%nat ->
    slice l (Z.of_nat i) (Z.of_nat i + 1) = [nth i l 0].
Proof.
  unfold slice. intros i Hi.
  replace (Z.to_nat (Z.of_nat i + 1 - Z.of_nat i)) with 1%nat by lia.
  rewrite Nat2Z.id. revert i Hi.
  induction l as [|x l IH]; intros i Hi; [cbn in Hi; lia|].
  destruct i as [|i]; [reflexivity|].
  cbn [skipn nth]. apply IH. cbn in Hi. lia.
Qed.

(** X17. With period one the simple moving average is the price series
    itself: every cell holds a number equal to the price at its position. *)
Theorem calculate_sma_period_one (l : list Q) :
  exists sma,
    calculate_sma (py_list l) 1 = Ok sma /\
    length sma = length l /\
    forall i, (i < length l)%nat ->
              exists v, nth_error sma i = Some (Some v) /\ v == nth i l 0.
Proof.
  destruct (calculate_sma_cells l 1 ltac:(arg_range)) as (sma & E & H).
  exists sma. split; [exact E|].
  apply (Forall2_range_nth _ (length l) 0) in H. destruct H as [Hlen Hnth].
  split; [exact Hlen|]. intros i Hi.
  destruct (Hnth i Hi) as (c & Ec & [_ Hval]).
  destruct (Hval ltac:(lia)) as (v & Ev & Hv). exists v.
  rewrite Ec, Ev. split; [reflexivity|]. rewrite Hv.
  replace (0 + Z.of_nat i - 1 + 1)%Z with (Z.of_nat i) by lia.
  replace (0 + Z.of_nat i + 1)%Z with (Z.of_nat i + 1)%Z by lia.
  rewrite slice_single by exact Hi.
  unfold mean, Qsum, len. cbn. field.
Qed.

(** ** indicators.py: more on the exponential average *)

Lemma ewm_loop_length (com alpha : Q) (minp : Z) (vals : Series) :
  forall st, length (ewm_loop com alpha minp st vals) = length vals.
Proof.
  induction vals as [|c vals IH]; intro st; [reflexivity|].
  cbn [ewm_loop length]. rewrite IH. reflexivity.
Qed.

Lemma ewm_kernel_length (com alpha : Q) (minp : Z) (vals : Series) :
  length (ewm_kernel com alpha minp vals) = length vals.
Proof.
  destruct vals as [|c vals]; [reflexivity|].
  cbn [ewm_kernel length]. rewrite ewm_loop_length. reflexivity.
Qed.

Lemma span_weight_range (span : Z) :
  (1 <= span)%Z -> 0 < span_weight span /\ span_weight span <= 1.
Proof.
  intro H. unfold span_weight. rewrite (span_alpha span H).
  assert (Hq : 1 <= inject_Z span).
  { change 1 with (inject_Z 1). rewrite <- Zle_Qle. exact H. }
  split.
  - apply Qlt_shift_div_l; lra.
  - apply Qle_shift_div_r; lra.
Qed.

Lemma ema_chain_within (alpha lo hi : Q) (l : list Q) :
  0 <= alpha -> alpha <= 1 ->
  forall w vals,
    lo <= w <= hi -> within lo hi l ->
    ema_chain alpha w l vals -> within lo hi vals.
Proof.
  intros Ha0 Ha1.
  induction l as [|p l IH]; intros w [|v vals] Hw Hl H; cbn in H;
    try tauto; try constructor.
  all: destruct H as [Hv Hrest]; inversion Hl as [|? ? Hp Hl']; subst.
  all: assert (Hvb : lo <= v <= hi) by (rewrite Hv; split; nra).
  - exact Hvb.
  - apply (IH v); assumption.
Qed.

Lemma ema_chain_weight_one (alpha : Q) (l : list Q) :
  alpha == 1 ->
  forall w vals, ema_chain alpha w l vals -> Forall2 Qeq vals l.
Proof.
  intro Ha.
  induction l as [|p l IH]; intros w [|v vals] H; cbn in H;
    try tauto; constructor.
  - destruct H as [Hv _]. rewrite Hv, Ha. ring.
  - apply (IH v). tauto.
Qed.

(** X18. [calculate_ema] raises the library's ValueError on every period
    below one; for every period from one up to [2^1024] and every input, a
    Series with NaN cells included, it returns a Series with one cell for
    each cell of the input. *)
Theorem calculate_ema_aligned (data : array_like) (period : Z) :
  ((period < 1)%Z -> calculate_ema data period = Raise ValueError) /\
  ((1 <= period < 2 ^ 1024)%Z ->
   exists ema,
     calculate_ema data period = Ok ema /\
     length ema = length (mkSeries data)).
Proof.
  unfold calculate_ema, ewm_mean. split; intro H.
  - destruct (Z.ltb_spec period 1); [reflexivity | lia].
  - destruct (Z.ltb_spec period 1); [lia|].
    destruct (Z.leb_spec span_limit period); [arg_range|]. cbn [bind].
    eexists. split; [reflexivity|]. apply ewm_kernel_length.
Qed.

Lemma calculate_ema_aligned_witness :
  calculate_ema (py_list [1; 2; 3]) 0 = Raise ValueError /\
  exists ema,
    calculate_ema (pd_series [NaN; Some 2; NaN]) 5 = Ok ema /\
    length ema = 3%nat.
Proof.
  split.
  - apply (proj1 (calculate_ema_aligned (py_list [1; 2; 3]) 0)). lia.
  - apply (proj2 (calculate_ema_aligned (pd_series [NaN; Some 2; NaN]) 5)).
    split; [lia | reflexivity].
Defined.

(** X20. With period one the weight of the new price is one and the
    exponential average is the price series itself: every cell holds a
    number equal to the price at its position. *)
Theorem calculate_ema_period_one (l : list Q) :
  exists ema,
    calculate_ema (py_list l) 1 = Ok (map Some ema) /\
    Forall2 Qeq ema l.
Proof.
  unfold calculate_ema. cbn [mkSeries]. destruct l as [|p0 l].
  - exists []. split; [reflexivity | constructor].
  - destruct (ewm_mean_steps p0 l 1 ltac:(arg_range)) as (vals & E & Hc & _).
    exists (p0 :: vals). rewrite E. split; [reflexivity|].
    constructor; [reflexivity|].
    apply (ema_chain_weight_one (span_weight 1) l ltac:(reflexivity) p0).
    exact Hc.
Qed.

(** ** indicators.py: more on MACD *)

Lemma ewm_mean_ok (s : Series) (span : Z) :
  (1 <= span < span_limit)%Z ->
  ewm_mean s span = Ok (ewm_kernel (span_com span) (span_weight span) 1 s).
Proof.
  intro H. unfold ewm_mean. destruct (Z.ltb_spec span 1); [lia|].
  destruct (Z.leb_spec span_limit span); [lia | reflexivity].
Qed.

Lemma series_sub_length (a : Series) :
  forall b, length a = length b -> length (series_sub a b) = length a.
Proof.
  induction a as [|x a IH]; intros [|y b] H; cbn in *; try lia.
  rewrite IH; lia.
Qed.

Lemma series_sub_numbers (a : list Q) :
  forall b, series_sub (map Some a) (map Some b) = map Some (sub_lists a b).
Proof.
  induction a as [|x a IH]; intros [|y b]; cbn; try reflexivity.
  rewrite IH. reflexivity.
Qed.

Lemma sub_lists_within (lo hi : Q) (a : list Q) :
  forall b,
    within lo hi a -> within lo hi b ->
    within (lo - hi) (hi - lo) (sub_lists a b).
Proof.
  induction a as [|x a IH]; intros [|y b] Ha Hb; cbn [sub_lists];
    try constructor.
  - inversion Ha as [|? ? Hx _]; inversion Hb as [|? ? Hy _]; subst.
    split; lra.
  - inversion Ha; inversion Hb; subst. apply IH; assumption.
Qed.

(** The two lines of MACD on a price list that is not empty: both start
    from the first price less itself, the MACD line is the difference of
    two runs of the recurrence and the signal line a run on that
    difference. *)
Lemma calculate_macd_numbers (p0 : Q) (l : list Q) :
  exists v12 v26 vs,
    calculate_macd (py_list (p0 :: l)) =
    Ok (map Some ((p0 - p0) :: sub_lists v12 v26),
        map Some ((p0 - p0) :: vs)) /\
    ema_chain (span_weight 12) p0 l v12 /\
    ema_chain (span_weight 26) p0 l v26 /\
    ema_chain (span_weight 9) (p0 - p0) (sub_lists v12 v26) vs.
Proof.
  destruct (ewm_mean_steps p0 l 12 ltac:(arg_range)) as (v12 & E12 & H12 & _).
  destruct (ewm_mean_steps p0 l 26 ltac:(arg_range)) as (v26 & E26 & H26 & _).
  destruct (ewm_mean_steps (p0 - p0) (sub_lists v12 v26) 9 ltac:(arg_range))
    as (vs & E9 & H9 & _).
  exists v12, v26, vs. split; [|auto].
  unfold calculate_macd, calculate_ema. cbn [mkSeries].
  rewrite E12, E26. cbn [bind]. rewrite series_sub_numbers.
  cbn [sub_lists]. rewrite E9. reflexivity.
Qed.

(** X21. [calculate_macd] never raises: on every input, a Series with NaN
    cells included, it returns a MACD line and a signal line with one cell
    each for each cell of the input. *)
Theorem calculate_macd_aligned (data : array_like) :
  exists macd signal_line,
    calculate_macd data = Ok (macd, signal_line) /\
    length macd = length (mkSeries data) /\
    length signal_line = length (mkSeries data).
Proof.
  unfold calculate_macd, calculate_ema.
  rewrite !ewm_mean_ok by arg_range. cbn [bind mkSeries].
  rewrite ewm_mean_ok by arg_range. cbn [bind].
  do 2 eexists. split; [reflexivity|].
  assert (H : length (series_sub
                        (ewm_kernel (span_com 12) (span_weight 12) 1
                                    (mkSeries data))
                        (ewm_kernel (span_com 26) (span_weight 26) 1
                                    (mkSeries data)))
              = length (mkSeries data)).
  { rewrite series_sub_length; rewrite !ewm_kernel_length; reflexivity. }
  split; [exact H|]. rewrite ewm_kernel_length. exact H.
Qed.

(** X22. On a price list that is not empty the first cell of the MACD line
    and the first cell of the signal line hold numbers equal to zero: both
    averages start from the first price. *)
Theorem calculate_macd_first_zero (l : list Q) :
  l <> [] ->
  exists m0 s0 macd signal_line,
    calculate_macd (py_list l) = Ok (Some m0 :: macd, Some s0 :: signal_line)
    /\ m0 == 0 /\ s0 == 0.
Proof.
  intro H. destruct l as [|p0 l]; [congruence|].
  destruct (calculate_macd_numbers p0 l) as (v12 & v26 & vs & E & _).
  exists (p0 - p0), (p0 - p0). do 2 eexists.
  split; [rewrite E; reflexivity|]. split; ring.
Qed.

Lemma calculate_macd_first_zero_witness :
  exists m0 s0 macd signal_line,
    calculate_macd (py_list prices) = Ok (Some m0 :: macd, Some s0 :: signal_line)
    /\ m0 == 0 /\ s0 == 0.
Proof.
  apply (calculate_macd_first_zero prices). discriminate.
Defined.

(** X23. When every price lies between [lo] and [hi], every cell of the
    MACD line and of the signal line holds a number between [lo - hi] and
    [hi - lo]: neither line exceeds the spread of the prices. *)
Theorem calculate_macd_within (l : list Q) (lo hi : Q) :
  within lo hi l ->
  exists macd signal_line,
    calculate_macd (py_list l) = Ok (map Some macd, map Some signal_line) /\
    within (lo - hi) (hi - lo) macd /\
    within (lo - hi) (hi - lo) signal_line.
Proof.
  intro Hl. destruct l as [|p0 l].
  - exists [], []. repeat split; constructor.
  - destruct (calculate_macd_numbers p0 l)
      as (v12 & v26 & vs & E & H12 & H26 & H9).
    do 2 eexists. split; [exact E|].
    inversion Hl as [|? ? Hp0 Hl']; subst.
    destruct (span_weight_range 12 ltac:(lia)) as [A12 B12].
    destruct (span_weight_range 26 ltac:(lia)) as [A26 B26].
    destruct (span_weight_range 9 ltac:(lia)) as [A9 B9].
    assert (W12 : within lo hi v12)
      by (apply (ema_chain_within (span_weight 12) lo hi l ltac:(lra) B12
                   p0 v12 Hp0 Hl' H12)).
    assert (W26 : within lo hi v26)
      by (apply (ema_chain_within (span_weight 26) lo hi l ltac:(lra) B26
                   p0 v26 Hp0 Hl' H26)).
    assert (Wm : within (lo - hi) (hi - lo) (sub_lists v12 v26))
      by (apply sub_lists_within; assumption).
    assert (W0 : lo - hi <= p0 - p0 <= hi - lo) by lra.
    split; constructor; try exact W0; try exact Wm.
    apply (ema_chain_within (span_weight 9) _ _ _ ltac:(lra) B9
             (p0 - p0) vs W0 Wm H9).
Qed.

Lemma calculate_macd_within_witness :
  exists macd signal_line,
    calculate_macd (py_list historical_prices) =
    Ok (map Some macd, map Some signal_line) /\
    within (100 - 110) (110 - 100) macd /\
    within (100 - 110) (110 - 100) signal_line.
Proof.
  apply (calculate_macd_within historical_prices 100 110).
  repeat constructor; vm_compute; discriminate.
Defined.

(** ** indicators.py: more on the levels by frequency *)

Lemma occurrences_absent (v : Q) (l : list Q) :
  ~ InA Qeq v l -> occurrences v l = 0%Z.
Proof.
  induction l as [|x l IH]; intro H; [reflexivity|].
  rewrite occurrences_cons. destruct (Qeq_bool v x) eqn:E.
  - exfalso. apply H. apply InA_cons_hd. apply Qeq_bool_iff. exact E.
  - rewrite IH; [lia|]. intro Hin. apply H. apply InA_cons_tl. exact Hin.
Qed.

Lemma occurrences_nodup (v : Q) (l : list Q) :
  NoDupA Qeq l -> (occurrences v l <= 1)%Z.
Proof.
  induction 1 as [|x l Hx Hl IH]; [unfold occurrences, len; cbn; lia|].
  rewrite occurrences_cons. destruct (Qeq_bool v x) eqn:E; [|lia].
  apply Qeq_bool_iff in E. rewrite occurrences_absent; [lia|].
  intro Hin. apply Hx. rewrite <- E. exact Hin.
Qed.

(** X25. On prices that are all different both lists of
    [identify_horizontal_support_resistance] are empty: no level is
    reported at all. *)
Theorem no_levels_on_distinct_prices (l : list Q) :
  NoDupA Qeq l ->
  identify_horizontal_support_resistance (py_list l) =
  Ok (mkHorizontal [] []).
Proof.
  intro H. unfold identify_horizontal_support_resistance, index_where.
  cbn [mkSeries]. rewrite !filter_none; [reflexivity | |].
  - intros [k n] Hin. apply value_counts_entry in Hin. cbn [snd].
    destruct Hin as [_ En]. pose proof (occurrences_nodup k l H).
    destruct (Z.ltb_spec 1 n); [lia | reflexivity].
  - intros [k n] Hin. apply value_counts_entry in Hin. cbn [snd].
    destruct (Z.ltb_spec n 1); [lia | reflexivity].
Qed.

Lemma no_levels_on_distinct_prices_witness :
  identify_horizontal_support_resistance (py_list [1; 3; 2; 5]) =
  Ok (mkHorizontal [] []).
Proof.
  apply (no_levels_on_distinct_prices [1; 3; 2; 5]).
  repeat constructor; intro H;
    repeat match goal with
           | H : InA _ _ _ |- _ => inversion H; clear H; subst
           end;
    discriminate.
Defined.

Lemma insert_by_count_sorted (x : Q * Z) (sorted : list (Q * Z)) :
  StronglySorted (fun a b => snd b <= snd a)%Z sorted ->
  StronglySorted (fun a b => snd b <= snd a)%Z (insert_by_count x sorted).
Proof.
  induction 1 as [|y rest Hrest IH Hy]; cbn [insert_by_count].
  - repeat constructor.
  - destruct (Z.leb_spec (snd y) (snd x)) as [Hle|Hgt].
    + constructor; [constructor; assumption|].
      constructor; [exact Hle|].
      rewrite Forall_forall in *. intros z Hz. specialize (Hy z Hz). lia.
    + constructor; [exact IH|].
      apply Forall_forall. intros z Hz.
      apply in_insert_by_count in Hz. destruct Hz as [Ez|Hz].
      * subst z. lia.
      * rewrite Forall_forall in Hy. apply Hy. exact Hz.
Qed.

Lemma sort_by_count_sorted (table : list (Q * Z)) :
  StronglySorted (fun a b => snd b <= snd a)%Z (sort_by_count table).
Proof.
  unfold sort_by_count. induction table as [|x table IH]; cbn [fold_right].
  - constructor.
  - apply insert_by_count_sorted. exact IH.
Qed.

Lemma strongly_sorted_map {A B : Type} (R : A -> A -> Prop)
      (R' : B -> B -> Prop) (f : A -> B) (l : list A) :
  (forall x y, In x l -> In y l -> R x y -> R' (f x) (f y)) ->
  StronglySorted R l -> StronglySorted R' (map f l).
Proof.
  intros H Hs. induction Hs as [|a l Hl IH Ha]; cbn [map]; constructor.
  - apply IH. intros x y Hx Hy. apply H; right; assumption.
  - rewrite Forall_forall in *. intros b Hb. apply in_map_iff in Hb.
    destruct Hb as (y & Ey & Hy). subst b.
    apply H; [left; reflexivity | right; exact Hy | apply Ha; exact Hy].
Qed.

(** X26. The resistance list comes in the order of [value_counts], from
    the most frequent value to the least frequent: no value of the list
    occurs more often than a value listed before it. *)
Theorem resistance_by_frequency (l : list Q) :
  exists res,
    identify_horizontal_support_resistance (py_list l) =
    Ok (mkHorizontal [] res) /\
    StronglySorted (fun a b => occurrences b l <= occurrences a l)%Z res.
Proof.
  unfold identify_horizontal_support_resistance, index_where.
  cbn [mkSeries]. eexists. split.
  - f_equal. f_equal. rewrite filter_none; [reflexivity|].
    intros [k n] Hin. apply value_counts_entry in Hin. cbn [snd].
    destruct (Z.ltb_spec n 1); [lia | reflexivity].
  - apply strongly_sorted_map
      with (R := fun a b : Q * Z => (snd b <= snd a)%Z).
    + intros [k n] [k' n'] Hx Hy Hle. cbn [fst snd] in *.
      apply filter_In in Hx. apply filter_In in Hy.
      destruct Hx as [Hx _], Hy as [Hy _].
      apply value_counts_entry in Hx. apply value_counts_entry in Hy.
      destruct Hx as [_ Ex], Hy as [_ Ey]. lia.
    + apply filter_strongly_sorted. apply sort_by_count_sorted.
Qed.

(** ** indicators.py: more on the Fibonacci levels *)

(** X27. For inputs within the range of the floats with the swing high
    not below the swing low, the support levels fall from level 1 to level
    3 and the resistance levels rise from level 1 to level 3. *)
Theorem fibonacci_levels_ordered (swing_high swing_low : Q) :
  Qabs swing_high <= inject_Z (10 ^ 300) ->
  Qabs swing_low <= inject_Z (10 ^ 300) ->
  swing_low <= swing_high ->
  exists s1 s2 s3 r1 r2 r3,
    calculate_fibonacci_levels swing_high swing_low =
    Ok [ ("Support Level 1"%string, s1); ("Support Level 2"%string, s2);
         ("Support Level 3"%string, s3); ("Resistance Level 1"%string, r1);
         ("Resistance Level 2"%string, r2); ("Resistance Level 3"%string, r3) ]
    /\
    s3 <= s2 /\ s2 <= s1 /\ r1 <= r2 /\ r2 <= r3.
Proof.
  intros _ _ H. do 6 eexists. split; [reflexivity|].
  repeat split; lra.
Qed.

Lemma fibonacci_levels_ordered_witness :
  exists s1 s2 s3 r1 r2 r3,
    calculate_fibonacci_levels 110 100 =
    Ok [ ("Support Level 1"%string, s1); ("Support Level 2"%string, s2);
         ("Support Level 3"%string, s3); ("Resistance Level 1"%string, r1);
         ("Resistance Level 2"%string, r2); ("Resistance Level 3"%string, r3) ]
    /\
    s3 <= s2 /\ s2 <= s1 /\ r1 <= r2 /\ r2 <= r3.
Proof.
  apply (fibonacci_levels_ordered 110 100); vm_compute; discriminate.
Defined.

(** ** indicators.py: more on peaks and troughs *)

(** X29. On a price list that never falls, or never rises, plateaus
    allowed, [peak_trough_analysis] finds no peak and no trough. *)
Theorem peak_trough_monotone (l : list Q) :
  (forall i, (i + 1 < length l)%nat -> nth i l 0 <= nth (i + 1) l 0) \/
  (forall i, (i + 1 < length l)%nat -> nth (i + 1) l 0 <= nth i l 0) ->
  peak_trough_analysis l = Ok (mkPeaksTroughs [] []).
Proof.
  intro H. rewrite peak_trough_analysis_filter.
  assert (Hstep : forall i, In i (seq 1 (length l - 2)) ->
                            peak_at l i = false /\ trough_at l i = false).
  { intros i Hi. apply in_seq in Hi. unfold trough_at, peak_at.
    destruct H as [H|H].
    - pose proof (H i ltac:(lia)) as Hnext.
      pose proof (H (i - 1)%nat ltac:(lia)) as Hprev.
      replace (i - 1 + 1)%nat with i in Hprev by lia.
      apply Qltb_false_iff in Hnext. apply Qltb_false_iff in Hprev.
      rewrite Hnext, Hprev, andb_false_r. split; reflexivity.
    - pose proof (H i ltac:(lia)) as Hnext.
      pose proof (H (i - 1)%nat ltac:(lia)) as Hprev.
      replace (i - 1 + 1)%nat with i in Hprev by lia.
      apply Qltb_false_iff in Hnext. apply Qltb_false_iff in Hprev.
      rewrite Hnext, Hprev, andb_false_r. split; reflexivity. }
  rewrite !filter_none; [reflexivity | |]; intros i Hi; apply Hstep; exact Hi.
Qed.

Lemma peak_trough_monotone_witness :
  peak_trough_analysis [1; 2; 2; 3] = Ok (mkPeaksTroughs [] []).
Proof.
  apply (peak_trough_monotone [1; 2; 2; 3]). left.
  intros [|[|[|i]]] Hi; cbn in *; try lia; vm_compute; discriminate.
Defined.

Lemma nth_opp (l : list Q) (i : nat) :
  nth i (map Qopp l) 0 = - nth i l 0.
Proof.
  exact (map_nth Qopp l 0 i).
Qed.

Lemma peak_at_opp (l : list Q) (i : nat) :
  peak_at (map Qopp l) i = trough_at l i.
Proof.
  unfold trough_at, peak_at. rewrite !nth_opp, !Qltb_opp.
  decide_comparisons; cbn [andb negb]; try reflexivity; exfalso; lra.
Qed.

Lemma trough_at_opp (l : list Q) (i : nat) :
  trough_at (map Qopp l) i = peak_at l i.
Proof.
  unfold trough_at, peak_at. rewrite !nth_opp, !Qltb_opp.
  decide_comparisons; cbn [andb negb]; try reflexivity; exfalso; lra.
Qed.

(** X30. Turning the prices upside down exchanges peaks and troughs: on
    the negated prices the peaks are the negated troughs of the prices and
    the troughs their negated peaks, in the same order. *)
Theorem peak_trough_upside_down (l : list Q) :
  exists r,
    peak_trough_analysis l = Ok r /\
    peak_trough_analysis (map Qopp l) =
    Ok (mkPeaksTroughs (map Qopp (troughs r)) (map Qopp (peaks r))).
Proof.
  rewrite !peak_trough_analysis_filter, length_map.
  eexists. split; [reflexivity|]. cbn [peaks troughs].
  rewrite (filter_ext _ _ (peak_at_opp l)),
    (filter_ext _ _ (trough_at_opp l)), !map_map.
  f_equal. f_equal; apply map_ext; intro i; apply nth_opp.
Qed.

(** ** Instances *)

(** A bar opening above the previous close and closing below the previous
    open. *)
Lemma is_engulfing_bearish_iff_witness :
  is_engulfing 102 100 103 99 = "Bearish"%string.
Proof.
  apply (proj2 (is_engulfing_bearish_iff 102 100 103 99)).
  split; reflexivity.
Defined.

Lemma calculate_sma_period_one_witness :
  exists sma v,
    calculate_sma (py_list [4; 5; 6]) 1 = Ok sma /\
    nth_error sma 1 = Some (Some v) /\ v == 5.
Proof.
  destruct (calculate_sma_period_one [4; 5; 6]) as (sma & E & _ & H).
  destruct (H 1%nat ltac:(cbn; lia)) as (v & Ev & Hv).
  exists sma, v. auto.
Defined.
